(** * The UDP transport of the DNS resolver (src/udp.cpp)

    A shallow embedding of the class [Udp]: its member state, the event
    loop and the operating system it talks to, and its methods written in a
    small monad that threads the state, collects the observable events of a
    call (member accesses, system calls, event-loop calls, the call of the
    user-space handler) and propagates C++ exceptions. *)

From Stdlib Require Import String.
From Stdlib Require Import ZArith NArith PArith List Bool Lia.
From Stdlib.Strings Require Import Byte.
Import ListNotations.
Open Scope Z_scope.

(** ** Constants of the system headers (Linux values) *)

Definition AF_INET : Z := 2.
Definition AF_INET6 : Z := 10.
Definition SOCK_DGRAM : Z := 2.
Definition SOCK_CLOEXEC : Z := 524288.
Definition SOL_SOCKET : Z := 1.
Definition SO_SNDBUF : Z := 7.
Definition SO_RCVBUF : Z := 8.
Definition MSG_DONTWAIT : Z := 64.
Definition MSG_NOSIGNAL : Z := 16384.
Definition POLLIN : Z := 1.

(** [sizeof(buffer)] in [Udp::notify]. *)
Definition BUFFER_SIZE : Z := 65536.

(** [htons] on a little-endian host: the two bytes of a 16-bit value swapped. *)
Definition htons (x : Z) : Z :=
  Z.lor (Z.shiftl (Z.land x 255) 8) (Z.land (Z.shiftr x 8) 255).

(** ** Data *)

(** Opaque pointers ([void *]): the registration tokens of the event loop. *)
Definition ptr := N.
Definition nullptr : ptr := 0%N.

(** The storage of a [struct sockaddr_in6], which is also big enough for a
    [struct sockaddr_in]: the family decides how the rest is read. *)
Record sockaddr := mk_sockaddr {
  sa_family : Z;
  sa_port : Z;
  sa_flowinfo : Z;
  sa_addr : list byte;
  sa_scope_id : Z
}.

Definition sockaddr_in (port : Z) (addr : list byte) : sockaddr :=
  mk_sockaddr AF_INET port 0 addr 0.

Definition sockaddr_in6 (port flowinfo : Z) (addr : list byte) (scope : Z) : sockaddr :=
  mk_sockaddr AF_INET6 port flowinfo addr scope.

Definition sizeof_sockaddr_in : Z := 16.
Definition sizeof_sockaddr_in6 : Z := 28.
Definition sizeof_in_addr : nat := 4.
Definition sizeof_in6_addr : nat := 16.

(** Modelled from the spec: the class [Ip] (include/dnscpp/ip.h is not part
    of the sources), the address value that "exposes address family/version
    and raw bytes". *)
Inductive Ip :=
| Ip4 (bytes : list byte)
| Ip6 (bytes : list byte).

Definition Ip_version (ip : Ip) : Z :=
  match ip with Ip4 _ => 4 | Ip6 _ => 6 end.

Definition Ip_bytes (ip : Ip) : list byte :=
  match ip with Ip4 b => b | Ip6 b => b end.

(** C++ exceptions. [std::runtime_error] is the one [Udp::idle] catches. *)
Inductive exn :=
| runtime_error (what : string)
| other_exception (what : string).

(** Modelled from the spec: the construction of an [Ip] from a raw socket
    address, which "fails (unsupported/malformed family)" with a
    [std::runtime_error] when the family is neither of the two supported. *)
Definition Ip_of_sockaddr (a : sockaddr) : Ip + exn :=
  if sa_family a =? AF_INET then inl (Ip4 (firstn sizeof_in_addr (sa_addr a)))
  else if sa_family a =? AF_INET6 then inl (Ip6 (firstn sizeof_in6_addr (sa_addr a)))
  else inr (runtime_error "unsupported address family").

(** Modelled from the spec: the element type of [_responses] (its header is
    not part of the sources), the captured datagram
    "{captureTimestamp, sourceAddress: raw bytes sized for the largest
    supported family, payload, payloadLength}", built by
    [emplace_back(now, from, buffer, bytes)] and read through [ip()],
    [data()] and [size()]. *)
Record Response := mk_Response {
  response_now : Z;
  response_from : sockaddr;
  response_data : list byte
}.

Definition Response_new (now : Z) (from : sockaddr) (buffer : list byte) (bytes : Z) : Response :=
  mk_Response now from (firstn (Z.to_nat bytes) buffer).

Definition Response_ip (r : Response) : Ip + exn := Ip_of_sockaddr (response_from r).
Definition Response_size (r : Response) : Z := Z.of_nat (length (response_data r)).

(** The encoded query: opaque payload and its length. *)
Record Query := mk_Query { Query_data : list byte }.
Definition Query_size (q : Query) : Z := Z.of_nat (length (Query_data q)).

(** The member variables of [Udp] the methods use ([_core] and [_handler]
    are set by the constructor and never change). *)
Record Udp := mk_Udp {
  _fd : Z;
  _identifier : ptr;
  _idle : ptr;
  _responses : list Response
}.

(** Modelled from the spec: the state of a freshly constructed transport,
    "created closed" (the default member initialisers are in the header,
    which is not part of the sources). *)
Definition Udp_new : Udp := mk_Udp (-1) nullptr nullptr [].

(** Modelled from the spec: the event loop (include/dnscpp/loop.h is not part
    of the sources), seen through its registration interface
    "register(descriptor, interest, owner) -> token; unregister(token,
    descriptor, owner); armIdle(owner) -> idleToken; cancelIdle(idleToken,
    owner)". Only the registrations of this transport are recorded; tokens
    are opaque and never null. *)
Record Loop := mk_Loop {
  monitors : list (ptr * Z);
  idlers : list ptr;
  next_token : positive
}.

Definition Loop_new : Loop := mk_Loop [] [] 1%positive.

Definition ptr_eqb (a b : ptr) : bool := N.eqb a b.

Definition Loop_add (fd : Z) (l : Loop) : ptr * Loop :=
  let tok := Npos (next_token l) in
  (tok, mk_Loop (monitors l ++ [(tok, fd)]) (idlers l) (Pos.succ (next_token l))).

Definition Loop_remove (tok : ptr) (fd : Z) (l : Loop) : Loop :=
  mk_Loop (filter (fun m => negb (ptr_eqb (fst m) tok && (snd m =? fd))) (monitors l))
          (idlers l) (next_token l).

Definition Loop_idle (l : Loop) : ptr * Loop :=
  let tok := Npos (next_token l) in
  (tok, mk_Loop (monitors l) (idlers l ++ [tok]) (Pos.succ (next_token l))).

Definition Loop_cancel (tok : ptr) (l : Loop) : Loop :=
  mk_Loop (monitors l) (filter (fun t => negb (ptr_eqb t tok)) (idlers l)) (next_token l).

(** What the kernel holds for the socket: datagrams not yet received, and
    pending errors (both make [recvfrom] return, the second with -1). *)
Inductive Arrival :=
| Datagram (from : sockaddr) (payload : list byte)
| SocketError.

(** The operating system as the transport sees it: the open sockets with
    their address family, the descriptors [socket] will hand out next (none
    left: descriptor exhaustion), the receive queue of the transport's
    socket, the clock, and what was sent. *)
Record Os := mk_Os {
  sockets : list (Z * Z);
  fd_supply : list nat;
  inbound : list Arrival;
  clock : Z;
  outbound : list (sockaddr * list byte)
}.

(** The whole state: the object, the configured buffer size and the loop
    of its [_core], and the operating system. *)
Record State := mk_State {
  udp : Udp;
  buffersize : Z;
  loop : Loop;
  os : Os
}.

Definition with_udp (u : Udp) (s : State) : State := mk_State u (buffersize s) (loop s) (os s).
Definition with_loop (l : Loop) (s : State) : State := mk_State (udp s) (buffersize s) l (os s).
Definition with_os (o : Os) (s : State) : State := mk_State (udp s) (buffersize s) (loop s) o.

(** ** Events *)

Inductive field := F_core | F_handler | F_fd | F_identifier | F_idle | F_responses.

Inductive event :=
| EvRead (f : field)
| EvWrite (f : field)
| EvSocket (domain type protocol ret : Z)
| EvSetsockopt (fd level optname optval ret : Z)
| EvClose (fd : Z)
| EvPoll (fd events timeout ret : Z)
| EvRecvfrom (fd flags ret : Z)
| EvSendto (fd : Z) (size : Z) (flags : Z) (address : sockaddr) (ret : Z)
| EvNow
| EvLoopAdd (fd events : Z) (tok : ptr)
| EvLoopRemove (tok : ptr) (fd : Z)
| EvLoopIdle (tok : ptr)
| EvLoopCancel (tok : ptr)
| EvOnReceived (ip : Ip) (data : list byte) (size : Z)
| EvReport (what : string).

(** ** The monad *)

Inductive Res (A : Type) :=
| Val (a : A)
| Throw (e : exn).
Arguments Val {A} a.
Arguments Throw {A} e.

Record Out (A : Type) := mk_Out {
  res : Res A;
  final : State;
  events : list event
}.
Arguments mk_Out {A} _ _ _.
Arguments res {A} _.
Arguments final {A} _.
Arguments events {A} _.

Definition M (A : Type) := State -> Out A.

Definition ret {A} (a : A) : M A := fun s => mk_Out (Val a) s [].

Definition bind {A B} (m : M A) (f : A -> M B) : M B :=
  fun s =>
    match m s with
    | mk_Out (Val a) s1 evs1 =>
        match f a s1 with
        | mk_Out r s2 evs2 => mk_Out r s2 (evs1 ++ evs2)
        end
    | mk_Out (Throw e) s1 evs1 => mk_Out (Throw e) s1 evs1
    end.

Definition throw {A} (e : exn) : M A := fun s => mk_Out (Throw e) s [].

(** [try { body } catch (const std::runtime_error &) { handler }] *)
Definition try_catch_runtime_error (body : M unit) (handler : string -> M unit) : M unit :=
  fun s =>
    match body s with
    | mk_Out (Val a) s1 evs1 => mk_Out (Val a) s1 evs1
    | mk_Out (Throw (runtime_error what)) s1 evs1 =>
        match handler what s1 with
        | mk_Out r s2 evs2 => mk_Out r s2 (evs1 ++ evs2)
        end
    | mk_Out (Throw e) s1 evs1 => mk_Out (Throw e) s1 evs1
    end.

Declare Scope udp_scope.
Delimit Scope udp_scope with udp.
Notation "x <- m ;; k" := (bind m (fun x => k))
  (at level 61, m at next level, right associativity) : udp_scope.
Notation "m ;; k" := (bind m (fun _ => k))
  (at level 61, right associativity) : udp_scope.
Open Scope udp_scope.

Definition emit (e : event) : M unit := fun s => mk_Out (Val tt) s [e].
Definition get : M State := fun s => mk_Out (Val s) s [].
Definition put (s : State) : M unit := fun _ => mk_Out (Val tt) s [].

(** Member accesses. *)
Definition rd_fd : M Z := emit (EvRead F_fd) ;; s <- get ;; ret (_fd (udp s)).
Definition wr_fd (v : Z) : M unit :=
  emit (EvWrite F_fd) ;; s <- get ;;
  put (with_udp (mk_Udp v (_identifier (udp s)) (_idle (udp s)) (_responses (udp s))) s).

Definition rd_identifier : M ptr := emit (EvRead F_identifier) ;; s <- get ;; ret (_identifier (udp s)).
Definition wr_identifier (v : ptr) : M unit :=
  emit (EvWrite F_identifier) ;; s <- get ;;
  put (with_udp (mk_Udp (_fd (udp s)) v (_idle (udp s)) (_responses (udp s))) s).

Definition rd_idle : M ptr := emit (EvRead F_idle) ;; s <- get ;; ret (_idle (udp s)).
Definition wr_idle (v : ptr) : M unit :=
  emit (EvWrite F_idle) ;; s <- get ;;
  put (with_udp (mk_Udp (_fd (udp s)) (_identifier (udp s)) v (_responses (udp s))) s).

Definition rd_responses : M (list Response) :=
  emit (EvRead F_responses) ;; s <- get ;; ret (_responses (udp s)).
Definition wr_responses (v : list Response) : M unit :=
  emit (EvWrite F_responses) ;; s <- get ;;
  put (with_udp (mk_Udp (_fd (udp s)) (_identifier (udp s)) (_idle (udp s)) v) s).

(** [_responses.empty()] *)
Definition responses_empty : M bool :=
  q <- rd_responses ;; ret (match q with [] => true | _ => false end).

(** [_responses.emplace_back(now, from, buffer, bytes)] *)
Definition responses_emplace_back (now : Z) (from : sockaddr) (buffer : list byte) (bytes : Z) : M unit :=
  q <- rd_responses ;; wr_responses (q ++ [Response_new now from buffer bytes]).

(** [oneitem.splice(oneitem.begin(), _responses, _responses.begin(),
    std::next(_responses.begin()))] on an empty local list [oneitem]: the
    first element leaves [_responses] and is all of [oneitem]. *)
Definition responses_splice_front : M (list Response) :=
  q <- rd_responses ;; wr_responses (tl q) ;; ret (firstn 1 q).

(** [_core->buffersize()] *)
Definition core_buffersize : M Z := emit (EvRead F_core) ;; s <- get ;; ret (buffersize s).

(** [_core->loop()->add(fd, events, this)] *)
Definition core_loop_add (fd events : Z) : M ptr :=
  emit (EvRead F_core) ;; s <- get ;;
  let (tok, l) := Loop_add fd (loop s) in
  put (with_loop l s) ;; emit (EvLoopAdd fd events tok) ;; ret tok.

(** [_core->loop()->remove(identifier, fd, this)] *)
Definition core_loop_remove (tok : ptr) (fd : Z) : M unit :=
  emit (EvRead F_core) ;; s <- get ;;
  put (with_loop (Loop_remove tok fd (loop s)) s) ;; emit (EvLoopRemove tok fd).

(** [_core->loop()->idle(this)] *)
Definition core_loop_idle : M ptr :=
  emit (EvRead F_core) ;; s <- get ;;
  let (tok, l) := Loop_idle (loop s) in
  put (with_loop l s) ;; emit (EvLoopIdle tok) ;; ret tok.

(** [_core->loop()->cancel(idle, this)] *)
Definition core_loop_cancel (tok : ptr) : M unit :=
  emit (EvRead F_core) ;; s <- get ;;
  put (with_loop (Loop_cancel tok (loop s)) s) ;; emit (EvLoopCancel tok).

(** System calls. *)

Definition sys_socket (domain type protocol : Z) : M Z :=
  s <- get ;;
  match fd_supply (os s) with
  | [] => emit (EvSocket domain type protocol (-1)) ;; ret (-1)
  | n :: rest =>
      let fd := Z.of_nat n in
      put (with_os (mk_Os ((fd, domain) :: sockets (os s)) rest (inbound (os s))
                          (clock (os s)) (outbound (os s))) s) ;;
      emit (EvSocket domain type protocol fd) ;; ret fd
  end.

Definition sys_setsockopt (fd level optname optval : Z) : M Z :=
  emit (EvSetsockopt fd level optname optval 0) ;; ret 0.

(** [::close(fd)]: the socket goes, and with it what it had not delivered. *)
Definition sys_close (fd : Z) : M unit :=
  s <- get ;;
  put (with_os (mk_Os (filter (fun e => negb (fst e =? fd)) (sockets (os s)))
                      (fd_supply (os s)) [] (clock (os s)) (outbound (os s))) s) ;;
  emit (EvClose fd).

(** [poll(&info, 1, 0)] with [info.events = POLLIN]: one descriptor is ready
    when the kernel holds something for the socket. *)
Definition sys_poll (fd events timeout : Z) : M Z :=
  s <- get ;;
  let r := match inbound (os s) with [] => 0 | _ => 1 end in
  emit (EvPoll fd events timeout r) ;; ret r.

(** [recvfrom(fd, buffer, sizeof(buffer), MSG_DONTWAIT, &from, &fromlen)]:
    the number of bytes stored, the source address and the buffer. With
    nothing to receive the call does not block and returns -1. *)
Definition no_sockaddr : sockaddr := mk_sockaddr 0 0 0 [] 0.

Definition sys_recvfrom (fd size flags : Z) : M (Z * sockaddr * list byte) :=
  s <- get ;;
  match inbound (os s) with
  | [] => emit (EvRecvfrom fd flags (-1)) ;; ret (-1, no_sockaddr, [])
  | a :: rest =>
      put (with_os (mk_Os (sockets (os s)) (fd_supply (os s)) rest
                          (clock (os s)) (outbound (os s))) s) ;;
      match a with
      | Datagram from payload =>
          let buffer := firstn (Z.to_nat size) payload in
          let bytes := Z.of_nat (length buffer) in
          emit (EvRecvfrom fd flags bytes) ;; ret (bytes, from, buffer)
      | SocketError => emit (EvRecvfrom fd flags (-1)) ;; ret (-1, no_sockaddr, [])
      end
  end.

Definition lookup_socket (fd : Z) (l : list (Z * Z)) : option Z :=
  match find (fun e => fst e =? fd) l with
  | Some e => Some (snd e)
  | None => None
  end.

(** [sendto(fd, data, size, MSG_NOSIGNAL, address, addrlen)]: succeeds on an
    open socket of the family of the address, fails with -1 otherwise. This
    is one behaviour a kernel may show, not the kernel's: what is proved
    about [Udp::send] holds for whatever [sendto] returns. *)
Definition sys_sendto (fd : Z) (data : list byte) (size flags : Z) (address : sockaddr) (addrlen : Z) : M Z :=
  s <- get ;;
  match lookup_socket fd (sockets (os s)) with
  | Some domain =>
      if domain =? sa_family address then
        put (with_os (mk_Os (sockets (os s)) (fd_supply (os s)) (inbound (os s))
                            (clock (os s)) (outbound (os s) ++ [(address, data)])) s) ;;
        emit (EvSendto fd size flags address size) ;; ret size
      else emit (EvSendto fd size flags address (-1)) ;; ret (-1)
  | None => emit (EvSendto fd size flags address (-1)) ;; ret (-1)
  end.

(** [Now now;] *)
Definition sys_now : M Z := emit EvNow ;; s <- get ;; ret (clock (os s)).

(** [_handler->onReceived(ip, data, size)]: user space. The call is an
    event of the run. What user space does in the call is not part of the
    transport: the handler is taken to return, and a handler that calls back
    into the transport does so in calls of its own, which come after the
    state changes of the invocation it was called from (the call is the last
    thing [Udp::idle] does). *)
Definition handler_onReceived (ip : Ip) (data : list byte) (size : Z) : M unit :=
  emit (EvRead F_handler) ;; emit (EvOnReceived ip data size).

(** [front.ip()]: may throw. *)
Definition eval_Response_ip (r : Response) : M Ip :=
  match Response_ip r with
  | inl ip => ret ip
  | inr e => throw e
  end.

(** ** The methods of [Udp] *)

(** [Udp::setintopt] *)
Definition setintopt (optname optval : Z) : M Z :=
  fd <- rd_fd ;;
  sys_setsockopt fd SOL_SOCKET optname optval.

(** [Udp::open] *)
Definition open (version : Z) : M bool :=
  fd <- rd_fd ;;
  if 0 <=? fd then ret true else
  newfd <- sys_socket (if version =? 6 then AF_INET6 else AF_INET)
                      (Z.lor SOCK_DGRAM SOCK_CLOEXEC) 0 ;;
  wr_fd newfd ;;
  fd <- rd_fd ;;
  if fd <? 0 then ret false else
  size <- core_buffersize ;;
  (if 0 <? size then
     size <- core_buffersize ;; setintopt SO_SNDBUF size ;;
     size <- core_buffersize ;; setintopt SO_RCVBUF size ;;
     ret tt
   else ret tt) ;;
  fd <- rd_fd ;;
  identifier <- core_loop_add fd 1 ;;
  wr_identifier identifier ;;
  ret true.

(** [Udp::stop] *)
Definition stop : M unit :=
  idle <- rd_idle ;;
  if ptr_eqb idle nullptr then ret tt else
  idle <- rd_idle ;;
  core_loop_cancel idle ;;
  wr_idle nullptr.

(** [Udp::close] *)
Definition close : M bool :=
  fd <- rd_fd ;;
  if fd <? 0 then ret false else
  identifier <- rd_identifier ;;
  fd <- rd_fd ;;
  core_loop_remove identifier fd ;;
  fd <- rd_fd ;;
  sys_close fd ;;
  wr_fd (-1) ;;
  wr_identifier nullptr ;;
  ret true.

(** [Udp::~Udp] *)
Definition destruct_Udp : M unit :=
  close ;;
  stop.

(** [Udp::readable] *)
Definition readable : M bool :=
  fd <- rd_fd ;;
  if fd <? 0 then ret false else
  fd <- rd_fd ;;
  n <- sys_poll fd POLLIN 0 ;;
  ret (0 <? n).

(** The [do { ... } while (++messages < 1024)] loop of [Udp::notify];
    [messages] is a [size_t]. The result says whether the loop ended by
    itself ([true]) or the fuel ran out before it did ([false]). *)
Fixpoint receive_loop (fuel : nat) (now : Z) (messages : Z) : M bool :=
  match fuel with
  | O => ret false
  | S fuel' =>
      fd <- rd_fd ;;
      r <- sys_recvfrom fd BUFFER_SIZE MSG_DONTWAIT ;;
      let '(bytes, from, buffer) := r in
      if bytes <=? 0 then ret true else
      responses_emplace_back now from buffer bytes ;;
      let messages' := (messages + 1) mod 2 ^ 64 in
      if messages' <? 1024 then receive_loop fuel' now messages' else ret true
  end.

(** [Udp::notify] *)
Definition notify : M unit :=
  fd <- rd_fd ;;
  if fd <? 0 then ret tt else
  now <- sys_now ;;
  receive_loop 1024 now 0 ;;
  idle <- rd_idle ;;
  if negb (ptr_eqb idle nullptr) then ret tt else
  idle <- core_loop_idle ;;
  wr_idle idle.

(** [Udp::idle]. The local list [oneitem] holds the front item of a queue
    that is not empty at that point; it is destroyed when the [try] block is
    left, which touches no member. *)
Definition idle : M unit :=
  empty <- responses_empty ;;
  if empty then stop else
  try_catch_runtime_error
    (oneitem <- responses_splice_front ;;
     match oneitem with
     | front :: _ =>
         ip <- eval_Response_ip front ;;
         handler_onReceived ip (response_data front) (Response_size front)
     | [] => ret tt
     end)
    (fun _ => ret tt).

(** [Udp::send(const struct sockaddr *, size_t, const Query &)] *)
Definition send_sockaddr (address : sockaddr) (size : Z) (query : Query) : M bool :=
  r <- readable ;;
  (if r then notify else ret tt) ;;
  fd <- rd_fd ;;
  n <- sys_sendto fd (Query_data query) (Query_size query) MSG_NOSIGNAL address size ;;
  ret (0 <=? n).

(** [Udp::send(const Ip &, const Query &)] *)
Definition send (ip : Ip) (query : Query) : M bool :=
  fd <- rd_fd ;;
  failed <- (if fd <? 0 then opened <- open (Ip_version ip) ;; ret (negb opened)
             else ret false) ;;
  if failed then ret false else
  if Ip_version ip =? 6 then
    send_sockaddr (sockaddr_in6 (htons 53) 0 (firstn sizeof_in6_addr (Ip_bytes ip)) 0)
                  sizeof_sockaddr_in6 query
  else
    send_sockaddr (sockaddr_in (htons 53) (firstn sizeof_in_addr (Ip_bytes ip)))
                  sizeof_sockaddr_in query.

(** ** Runs *)

(** The calls the owner and the event loop make on a live transport. *)
Inductive Call :=
| CallOpen (version : Z)
| CallClose
| CallReadable
| CallNotify
| CallIdle
| CallSend (ip : Ip) (query : Query).

Definition forget {A} (m : M A) : M unit := m ;; ret tt.

Definition call (c : Call) : M unit :=
  match c with
  | CallOpen version => forget (open version)
  | CallClose => forget close
  | CallReadable => forget readable
  | CallNotify => notify
  | CallIdle => idle
  | CallSend ip query => forget (send ip query)
  end.

(** What happens around the transport: the network delivers something to
    the socket, time passes, descriptors become available. None of it
    touches the object or the loop. An arrival may carry any source
    address: this is wider than the kernel, which stores for a datagram on
    the transport's socket a source of the family of that socket; see
    [supported_source]. *)
Inductive Step :=
| Calls (c : Call)
| Arrives (a : Arrival)
| Tick (now : Z)
| Frees (fd : nat).

Definition step (x : Step) (s : State) : State :=
  match x with
  | Calls c => final (call c s)
  | Arrives a =>
      match lookup_socket (_fd (udp s)) (sockets (os s)) with
      | Some _ => with_os (mk_Os (sockets (os s)) (fd_supply (os s)) (inbound (os s) ++ [a])
                                 (clock (os s)) (outbound (os s))) s
      | None => s
      end
  | Tick now => with_os (mk_Os (sockets (os s)) (fd_supply (os s)) (inbound (os s))
                               now (outbound (os s))) s
  | Frees fd => with_os (mk_Os (sockets (os s)) (fd_supply (os s) ++ [fd]) (inbound (os s))
                               (clock (os s)) (outbound (os s))) s
  end.

Definition run (xs : list Step) (s : State) : State := fold_left (fun s x => step x s) xs s.

(** A freshly constructed transport in a system that can hand out the
    descriptors [fds]. *)
Definition initial (size : Z) (fds : list nat) : State :=
  mk_State Udp_new size Loop_new (mk_Os [] fds [] 0 []).

Definition reachable (s : State) : Prop :=
  exists size fds xs, s = run xs (initial size fds).

(** [n] successive invocations of [Udp::idle], with no other call on the
    transport in between: the state after them and the events of each
    invocation. *)
Fixpoint idle_times (n : nat) (s : State) : State * list (list event) :=
  match n with
  | O => (s, [])
  | S n' =>
      let o := idle s in
      let (s', evs) := idle_times n' (final o) in
      (s', events o :: evs)
  end.

(** The calls of the handler among the events of a run. *)
Definition is_delivery (e : event) : bool :=
  match e with EvOnReceived _ _ _ => true | _ => false end.

Definition deliveries (evs : list event) : list event := filter is_delivery evs.

(** The member accesses among the events of a run. *)
Definition is_member_access (e : event) : bool :=
  match e with EvRead _ | EvWrite _ => true | _ => false end.

(** What the handler is called with for a queued response. *)
Definition delivery_of (r : Response) : list event :=
  match Response_ip r with
  | inl ip => [EvOnReceived ip (response_data r) (Response_size r)]
  | inr _ => []
  end.

(** The state with one member of the object replaced. *)
Definition set_responses (q : list Response) (s : State) : State :=
  with_udp (mk_Udp (_fd (udp s)) (_identifier (udp s)) (_idle (udp s)) q) s.

Definition set_idle (p : ptr) (s : State) : State :=
  with_udp (mk_Udp (_fd (udp s)) (_identifier (udp s)) p (_responses (udp s))) s.

Definition set_inbound (l : list Arrival) (s : State) : State :=
  with_os (mk_Os (sockets (os s)) (fd_supply (os s)) l (clock (os s)) (outbound (os s))) s.

(** The receive loop in closed form: with [budget] iterations left, what a
    run over the receive queue [pending] appends to [_responses], what it
    leaves in the kernel, and its events. *)
Fixpoint drain (budget : nat) (fd now : Z) (pending : list Arrival)
  : list Response * list Arrival * list event :=
  match budget with
  | O => ([], pending, [])
  | S budget' =>
      match pending with
      | [] => ([], [], [EvRead F_fd; EvRecvfrom fd MSG_DONTWAIT (-1)])
      | SocketError :: rest => ([], rest, [EvRead F_fd; EvRecvfrom fd MSG_DONTWAIT (-1)])
      | Datagram from payload :: rest =>
          let buffer := firstn (Z.to_nat BUFFER_SIZE) payload in
          let bytes := Z.of_nat (length buffer) in
          if bytes <=? 0 then ([], rest, [EvRead F_fd; EvRecvfrom fd MSG_DONTWAIT bytes])
          else
            let d := drain budget' fd now rest in
            (Response_new now from buffer bytes :: fst (fst d), snd (fst d),
             [EvRead F_fd; EvRecvfrom fd MSG_DONTWAIT bytes;
              EvRead F_responses; EvWrite F_responses] ++ snd d)
      end
  end.

(** The [recvfrom] calls among the events of a run. *)
Definition is_recvfrom (e : event) : bool :=
  match e with EvRecvfrom _ _ _ => true | _ => false end.

Definition count_recvfrom (evs : list event) : nat := length (filter is_recvfrom evs).

(** The events of an invocation of [Udp::idle] that finds [r] in front. *)
Definition idle_events (r : Response) : list event :=
  [EvRead F_responses; EvRead F_responses; EvWrite F_responses] ++
  match Response_ip r with
  | inl ip => [EvRead F_handler; EvOnReceived ip (response_data r) (Response_size r)]
  | inr _ => []
  end.

(** The representation invariant of a transport and its loop: the
    registration token is there exactly when the descriptor is; the loop
    holds the one idle watcher [_idle] names, or none; a non-empty queue has
    its watcher. *)
Definition Inv (s : State) : Prop :=
  ((_fd (udp s) = -1 /\ _identifier (udp s) = nullptr /\ monitors (loop s) = [])
   \/ (0 <= _fd (udp s) /\ _identifier (udp s) <> nullptr
       /\ monitors (loop s) = [(_identifier (udp s), _fd (udp s))]))
  /\ idlers (loop s) = (if ptr_eqb (_idle (udp s)) nullptr then [] else [_idle (udp s)])
  /\ (_responses (udp s) <> [] -> _idle (udp s) <> nullptr).

(** The socket of the transport is open for IP version [version]. *)
Definition family_of_version (version : Z) : Z :=
  if version =? 6 then AF_INET6 else AF_INET.

Definition open_for (version : Z) (s : State) : Prop :=
  0 <= _fd (udp s)
  /\ lookup_socket (_fd (udp s)) (sockets (os s)) = Some (family_of_version version).

(** The handler call, when there is one, is the last event. *)
Definition delivery_is_last (evs : list event) : Prop :=
  forall before e after,
    evs = before ++ e :: after -> is_delivery e = true -> after = [].

(** Every handler call comes after a write of [_responses]. *)
Definition removal_precedes_delivery (evs : list event) : Prop :=
  forall before e after,
    evs = before ++ e :: after -> is_delivery e = true -> In (EvWrite F_responses) before.

(** No member of the object is read or written after a handler call. *)
Definition no_access_after_delivery (evs : list event) : Prop :=
  forall before e after,
    evs = before ++ e :: after -> is_delivery e = true ->
    forall x, In x after -> is_member_access x = false.

(** Something is reported. *)
Definition is_report (e : event) : bool :=
  match e with EvReport _ => true | _ => false end.

(** The outcome of [sendto] on the state [s]. *)
Definition sendto_ok (fd : Z) (address : sockaddr) (s : State) : bool :=
  match lookup_socket fd (sockets (os s)) with
  | Some domain => domain =? sa_family address
  | None => false
  end.

Definition sendto_return (fd size : Z) (address : sockaddr) (s : State) : Z :=
  if sendto_ok fd address s then size else -1.

Definition sendto_final (fd : Z) (data : list byte) (address : sockaddr) (s : State) : State :=
  if sendto_ok fd address s then
    with_os (mk_Os (sockets (os s)) (fd_supply (os s)) (inbound (os s))
                   (clock (os s)) (outbound (os s) ++ [(address, data)])) s
  else s.

(** [if (readable()) notify();] on an open socket. *)
Definition pre_send_drain (s : State) : Out unit :=
  match inbound (os s) with
  | [] => ret tt s
  | _ => notify s
  end.

(** The destination structure [Udp::send] builds for [ip], and its size. *)
Definition destination (ip : Ip) : sockaddr :=
  if Ip_version ip =? 6 then
    sockaddr_in6 (htons 53) 0 (firstn sizeof_in6_addr (Ip_bytes ip)) 0
  else sockaddr_in (htons 53) (firstn sizeof_in_addr (Ip_bytes ip)).

Definition sizeof_destination (ip : Ip) : Z :=
  if Ip_version ip =? 6 then sizeof_sockaddr_in6 else sizeof_sockaddr_in.

(** The events of the best-effort buffer tuning in [Udp::open]. *)
Definition buffer_events (fd size : Z) : list event :=
  EvRead F_core ::
  (if 0 <? size then
     [EvRead F_core; EvRead F_fd; EvSetsockopt fd SOL_SOCKET SO_SNDBUF size 0;
      EvRead F_core; EvRead F_fd; EvSetsockopt fd SOL_SOCKET SO_RCVBUF size 0]
   else []).

(** With [budget] datagrams of non-empty payload at the head of the receive
    queue, all of them are taken, and nothing else. *)
Definition nonempty_datagram (a : Arrival) : bool :=
  match a with
  | Datagram _ payload => match payload with [] => false | _ => true end
  | SocketError => false
  end.

Definition response_of_arrival (now : Z) (a : Arrival) : list Response :=
  match a with
  | Datagram from payload =>
      let buffer := firstn (Z.to_nat BUFFER_SIZE) payload in
      [Response_new now from buffer (Z.of_nat (length buffer))]
  | SocketError => []
  end.

(** The state a drain leaves, before the watcher is looked at. *)
Definition drained (s : State) : State :=
  let d := drain 1024 (_fd (udp s)) (clock (os s)) (inbound (os s)) in
  set_inbound (snd (fst d)) (set_responses (_responses (udp s) ++ fst (fst d)) s).

Definition drained_events (s : State) : list event :=
  [EvRead F_fd; EvNow]
  ++ snd (drain 1024 (_fd (udp s)) (clock (os s)) (inbound (os s)))
  ++ [EvRead F_idle].

(** The watcher is armed. *)
Definition armed (s : State) : bool := negb (ptr_eqb (_idle (udp s)) nullptr).

(** A drain ran: [recvfrom] was called. *)
Definition drains (evs : list event) : bool := existsb is_recvfrom evs.

Definition is_empty {A} (l : list A) : bool :=
  match l with [] => true | _ => false end.

(** Calls of the event loop and of the system among the events of a run. *)
Definition is_unregistration (e : event) : bool :=
  match e with EvLoopRemove _ _ => true | _ => false end.

Definition is_registration (e : event) : bool :=
  match e with EvLoopAdd _ _ _ => true | _ => false end.

Definition is_cancel (e : event) : bool :=
  match e with EvLoopCancel _ => true | _ => false end.

Definition is_poll (e : event) : bool :=
  match e with EvPoll _ _ _ _ => true | _ => false end.

Definition is_socket_call (e : event) : bool :=
  match e with EvSocket _ _ _ _ => true | _ => false end.

(** Every invocation of a run of [Udp::idle] over the queue of [s] calls
    the handler once. *)
Definition one_delivery_per_invocation (s : State) : Prop :=
  Forall (fun evs => length (deliveries evs) = 1%nat)
         (snd (idle_times (length (_responses (udp s))) s)).

(** *** Example states *)

Definition ip4_example : Ip := Ip4 [x7f; x00; x00; x01].
Definition ip6_example : Ip := Ip6 (repeat x00 15 ++ [x01]).
Definition query_example : Query := mk_Query [x12; x34].

(** A transport that has sent one query to an IPv4 nameserver: its socket
    is open, nothing was received. *)
Definition opened_example : State :=
  run [Calls (CallSend ip4_example query_example)] (initial 0 [3%nat]).

(** A source address of a family that is neither [AF_INET] nor [AF_INET6]. *)
Definition stray_source : sockaddr := mk_sockaddr 1 0 0 [] 0.

(** One datagram with such a source is pending on the socket. *)
Definition stray_pending : State :=
  run [Arrives (Datagram stray_source [x07])] opened_example.

(** It has been captured by one drain. *)
Definition stray_queued : State :=
  run [Calls CallNotify] stray_pending.

(** Two datagrams from an IPv4 source, then one with the stray source,
    captured by one drain. *)
Definition source_example : sockaddr := sockaddr_in (htons 53) [x7f; x00; x00; x01].

Definition queued_example : State :=
  run [Arrives (Datagram source_example [x01]);
       Arrives (Datagram stray_source [x02]);
       Arrives (Datagram source_example [x03]);
       Calls CallNotify] opened_example.

(** The members written in a run. *)
Definition written_fields (evs : list event) : list field :=
  flat_map (fun e => match e with EvWrite f => [f] | _ => [] end) evs.

(** More datagrams are pending on the open socket than one drain takes. *)
Definition flood_example : State :=
  set_inbound (repeat (Datagram source_example [x2a]) 1025) opened_example.

(** A run that leaves the watcher alone and receives nothing. *)
Definition quiet {A} (s : State) (o : Out A) : Prop :=
  _idle (udp (final o)) = _idle (udp s) /\ drains (events o) = false.

(** *** Notions for the properties of the whole class *)

(** A queued response carries a payload of at least one byte and at most
    the size of the receive buffer. *)
Definition well_sized (r : Response) : Prop :=
  1 <= Response_size r <= BUFFER_SIZE.

(** A response captured by a drain that took the time [now]. *)
Definition captured_at (now : Z) (r : Response) : Prop :=
  response_now r = now /\ well_sized r.

Definition is_sendto (e : event) : bool :=
  match e with EvSendto _ _ _ _ _ => true | _ => false end.

Definition is_setsockopt (e : event) : bool :=
  match e with EvSetsockopt _ _ _ _ _ => true | _ => false end.

Definition is_close (e : event) : bool :=
  match e with EvClose _ => true | _ => false end.

(** The handler call of the idle dispatch on the queue [q]. *)
Definition front_delivery (q : list Response) : list event :=
  match q with
  | r :: _ => delivery_of r
  | [] => []
  end.

(** A transport with an armed watcher and an open socket: two datagrams
    are queued, nothing is pending. *)
Definition busy_example : State :=
  run [Arrives (Datagram source_example [x01]);
       Arrives (Datagram source_example [x02; x03]);
       Calls CallNotify] opened_example.

(** Two datagrams are pending on the open socket, nothing is queued. *)
Definition pending_example : State :=
  run [Arrives (Datagram source_example [x01]);
       Arrives (Datagram source_example [x02; x03])] opened_example.

(** A datagram without payload is pending in front of another one. *)
Definition hollow_example : State :=
  run [Arrives (Datagram source_example []);
       Arrives (Datagram source_example [x01])] opened_example.

(** What [Udp::send] does before it transmits: member accesses, opening
    the socket, polling and draining it. *)
Definition preparation (e : event) : bool :=
  match e with
  | EvRead _ | EvWrite _ | EvSocket _ _ _ _ | EvSetsockopt _ _ _ _ _
  | EvLoopAdd _ _ _ | EvPoll _ _ _ _ | EvNow | EvRecvfrom _ _ _ | EvLoopIdle _ => true
  | _ => false
  end.

Definition not_preparation (e : event) : bool := negb (preparation e).


(** *** Whole runs *)

(** The events of a step: those of the call, for a step that is one. *)
Definition step_events (x : Step) (s : State) : list event :=
  match x with
  | Calls c => events (call c s)
  | _ => []
  end.

(** The events of a run, in order. *)
Fixpoint trace (xs : list Step) (s : State) : list event :=
  match xs with
  | [] => []
  | x :: xs' => step_events x s ++ trace xs' (step x s)
  end.

(** What the network delivers to the socket in the course of a run. *)
Definition arrivals_of (xs : list Step) : list Arrival :=
  flat_map (fun x => match x with Arrives a => [a] | _ => [] end) xs.

(** The handler call an arrival stands for, if it comes to one: a handler
    call does not depend on the time of the capture. *)
Definition arrival_events (a : Arrival) : list event :=
  flat_map delivery_of (response_of_arrival 0 a).

(** [l1] is [l2] with some of its elements left out. *)
Inductive subseq {A : Type} : list A -> list A -> Prop :=
| subseq_nil : subseq [] []
| subseq_skip x l1 l2 : subseq l1 l2 -> subseq l1 (x :: l2)
| subseq_take x l1 l2 : subseq l1 l2 -> subseq (x :: l1) (x :: l2).

(** A run in which three datagrams arrive, the second from a stray source,
    and are dispatched. *)
Definition dispatch_run : list Step :=
  [Calls (CallSend ip4_example query_example);
   Arrives (Datagram source_example [x01]);
   Arrives (Datagram stray_source [x02]);
   Arrives (Datagram source_example [x03]);
   Calls CallNotify; Calls CallIdle; Calls CallIdle;
   Calls (CallSend ip4_example query_example);
   Calls CallIdle; Calls CallIdle].

(** *** What the kernel stores as the source of a datagram *)

(** The source of the arrival is of one of the two families the transport
    opens its socket for: [recvfrom] on an [AF_INET] or [AF_INET6] datagram
    socket stores no other. *)
Definition supported_source (a : Arrival) : bool :=
  match a with
  | Datagram from _ => (sa_family from =? AF_INET) || (sa_family from =? AF_INET6)
  | SocketError => true
  end.

(** The source address of the response can be reconstructed. *)
Definition reconstructs (r : Response) : bool :=
  match Response_ip r with
  | inl _ => true
  | inr _ => false
  end.

(** ** The methods, case by case *)

Ltac prims :=
  cbv beta iota zeta delta
    [bind ret emit get put throw rd_fd wr_fd rd_identifier wr_identifier rd_idle
     wr_idle rd_responses wr_responses responses_empty responses_emplace_back
     responses_splice_front core_buffersize core_loop_add core_loop_remove
     core_loop_idle core_loop_cancel sys_socket sys_setsockopt sys_close sys_poll
     sys_recvfrom sys_sendto sys_now handler_onReceived eval_Response_ip
     try_catch_runtime_error forget setintopt set_responses set_idle set_inbound];
  cbn [res final events with_udp with_loop with_os udp loop os buffersize
       _fd _identifier _idle _responses sockets fd_supply inbound clock outbound
       app Loop_add Loop_idle fst snd].

Ltac eta_state s :=
  destruct s as [[? ? ? ?] ? ? [? ? ? ? ?]];
  cbn [udp loop os buffersize _fd _identifier _idle _responses
       sockets fd_supply inbound clock outbound] in *.

Lemma open_already version s :
  0 <= _fd (udp s) -> open version s = mk_Out (Val true) s [EvRead F_fd].
Proof.
  intros H. unfold open. prims.
  destruct (Z.leb_spec 0 (_fd (udp s))); [reflexivity | lia].
Qed.

Lemma open_exhausted version s :
  _fd (udp s) < 0 -> fd_supply (os s) = [] ->
  open version s =
    mk_Out (Val false)
      (with_udp (mk_Udp (-1) (_identifier (udp s)) (_idle (udp s)) (_responses (udp s))) s)
      [EvRead F_fd;
       EvSocket (family_of_version version) (Z.lor SOCK_DGRAM SOCK_CLOEXEC) 0 (-1);
       EvWrite F_fd; EvRead F_fd].
Proof.
  intros H E. unfold open. prims.
  destruct (Z.leb_spec 0 (_fd (udp s))); [lia | ].
  prims. rewrite E. prims. change (-1 <? 0) with true. prims.
  unfold family_of_version. reflexivity.
Qed.

Lemma open_fresh version s n rest :
  _fd (udp s) < 0 -> fd_supply (os s) = n :: rest ->
  open version s =
    mk_Out (Val true)
      (mk_State
         (mk_Udp (Z.of_nat n) (Npos (next_token (loop s))) (_idle (udp s)) (_responses (udp s)))
         (buffersize s)
         (mk_Loop (monitors (loop s) ++ [(Npos (next_token (loop s)), Z.of_nat n)])
                  (idlers (loop s)) (Pos.succ (next_token (loop s))))
         (mk_Os ((Z.of_nat n, family_of_version version) :: sockets (os s)) rest
                (inbound (os s)) (clock (os s)) (outbound (os s))))
      ([EvRead F_fd;
        EvSocket (family_of_version version) (Z.lor SOCK_DGRAM SOCK_CLOEXEC) 0 (Z.of_nat n);
        EvWrite F_fd; EvRead F_fd]
       ++ buffer_events (Z.of_nat n) (buffersize s)
       ++ [EvRead F_fd; EvRead F_core; EvLoopAdd (Z.of_nat n) 1 (Npos (next_token (loop s)));
           EvWrite F_identifier]).
Proof.
  intros H E. unfold open. prims.
  destruct (Z.leb_spec 0 (_fd (udp s))); [lia | ].
  prims. rewrite E. prims.
  destruct (Z.ltb_spec (Z.of_nat n) 0); [lia | ].
  prims. unfold buffer_events, family_of_version.
  destruct (0 <? buffersize s); prims; reflexivity.
Qed.

Lemma stop_disarmed s :
  _idle (udp s) = nullptr -> stop s = mk_Out (Val tt) s [EvRead F_idle].
Proof.
  intros H. unfold stop. prims. rewrite H. reflexivity.
Qed.

Lemma stop_armed s :
  _idle (udp s) <> nullptr ->
  stop s =
    mk_Out (Val tt)
      (mk_State (mk_Udp (_fd (udp s)) (_identifier (udp s)) nullptr (_responses (udp s)))
                (buffersize s) (Loop_cancel (_idle (udp s)) (loop s)) (os s))
      [EvRead F_idle; EvRead F_idle; EvRead F_core; EvLoopCancel (_idle (udp s));
       EvWrite F_idle].
Proof.
  intros H. unfold stop. prims. unfold ptr_eqb.
  destruct (N.eqb_spec (_idle (udp s)) nullptr) as [E | E]; [contradiction | ].
  prims. reflexivity.
Qed.

Lemma close_closed s :
  _fd (udp s) < 0 -> close s = mk_Out (Val false) s [EvRead F_fd].
Proof.
  intros H. unfold close. prims.
  destruct (Z.ltb_spec (_fd (udp s)) 0); [reflexivity | lia].
Qed.

Lemma close_open s :
  0 <= _fd (udp s) ->
  close s =
    mk_Out (Val true)
      (mk_State (mk_Udp (-1) nullptr (_idle (udp s)) (_responses (udp s)))
                (buffersize s)
                (Loop_remove (_identifier (udp s)) (_fd (udp s)) (loop s))
                (mk_Os (filter (fun e => negb (fst e =? _fd (udp s))) (sockets (os s)))
                       (fd_supply (os s)) [] (clock (os s)) (outbound (os s))))
      [EvRead F_fd; EvRead F_identifier; EvRead F_fd; EvRead F_core;
       EvLoopRemove (_identifier (udp s)) (_fd (udp s)); EvRead F_fd;
       EvClose (_fd (udp s)); EvWrite F_fd; EvWrite F_identifier].
Proof.
  intros H. unfold close. prims.
  destruct (Z.ltb_spec (_fd (udp s)) 0); [lia | ].
  prims. reflexivity.
Qed.

Lemma readable_closed s :
  _fd (udp s) < 0 -> readable s = mk_Out (Val false) s [EvRead F_fd].
Proof.
  intros H. unfold readable. prims.
  destruct (Z.ltb_spec (_fd (udp s)) 0); [reflexivity | lia].
Qed.

Lemma readable_open s :
  0 <= _fd (udp s) ->
  readable s =
    mk_Out (Val (match inbound (os s) with [] => false | _ => true end)) s
      [EvRead F_fd; EvRead F_fd;
       EvPoll (_fd (udp s)) POLLIN 0 (match inbound (os s) with [] => 0 | _ => 1 end)].
Proof.
  intros H. unfold readable. prims.
  destruct (Z.ltb_spec (_fd (udp s)) 0); [lia | ].
  prims. destruct (inbound (os s)); reflexivity.
Qed.

(** *** The receive loop *)

Lemma receive_loop_drain now :
  forall fuel budget s,
    (1 <= budget <= 1024)%nat -> (budget <= fuel)%nat ->
    receive_loop fuel now (1024 - Z.of_nat budget) s =
      let d := drain budget (_fd (udp s)) now (inbound (os s)) in
      mk_Out (Val true)
        (set_inbound (snd (fst d)) (set_responses (_responses (udp s) ++ fst (fst d)) s))
        (snd d).
Proof.
  induction fuel as [| fuel IH]; intros budget s Hb Hf; [lia | ].
  destruct budget as [| budget]; [lia | ].
  cbn [receive_loop drain]. prims.
  eta_state s.
  destruct inbound0 as [| [from payload | ] rest]; prims.
  - rewrite app_nil_r. reflexivity.
  - unfold BUFFER_SIZE.
    destruct (Z.leb_spec (Z.of_nat (length (firstn (Z.to_nat 65536) payload))) 0) as [Hz | Hz].
    + prims. rewrite app_nil_r. reflexivity.
    + prims.
      replace ((1024 - Z.of_nat (S budget) + 1) mod 2 ^ 64) with (1024 - Z.of_nat budget)
        by (rewrite Z.mod_small; lia).
      destruct (Z.ltb_spec (1024 - Z.of_nat budget) 1024) as [Hm | Hm].
      * rewrite IH by lia. prims. rewrite <- app_assoc. reflexivity.
      * assert (budget = 0%nat) by lia. subst budget.
        prims. cbn [drain fst snd]. reflexivity.
  - rewrite app_nil_r. reflexivity.
Qed.

Lemma drain_bounds fd now :
  forall budget pending,
    let d := drain budget fd now pending in
    (length (fst (fst d)) <= count_recvfrom (snd d))%nat
    /\ (count_recvfrom (snd d) <= budget)%nat
    /\ exists consumed,
         pending = consumed ++ snd (fst d)
         /\ (length (fst (fst d)) <= length consumed)%nat
         /\ (length consumed <= count_recvfrom (snd d))%nat.
Proof.
  unfold count_recvfrom.
  induction budget as [| budget IH]; intros pending; cbn [drain].
  - cbn. repeat split; try lia. exists []. cbn. repeat split; lia.
  - destruct pending as [| [from payload | ] rest].
    + cbn. repeat split; try lia. exists []. cbn. repeat split; lia.
    + destruct (Z.leb_spec (Z.of_nat (length (firstn (Z.to_nat BUFFER_SIZE) payload))) 0).
      * cbn. repeat split; try lia. exists [Datagram from payload]. cbn. repeat split; lia.
      * specialize (IH rest). cbn zeta in IH.
        destruct IH as (H1 & H2 & consumed & H3 & H4 & H5).
        cbn [fst snd length app filter is_recvfrom].
        repeat split; try lia.
        exists (Datagram from payload :: consumed). cbn [app length].
        split; [congruence | lia].
    + cbn. repeat split; try lia. exists [SocketError]. cbn. repeat split; lia.
Qed.

Lemma drain_events_shape fd now :
  forall budget pending e,
    In e (snd (drain budget fd now pending)) ->
    match e with
    | EvRead F_fd | EvRead F_responses | EvWrite F_responses | EvRecvfrom _ _ _ => True
    | _ => False
    end.
Proof.
  induction budget as [| budget IH]; intros pending e; cbn [drain].
  - cbn. tauto.
  - destruct pending as [| [from payload | ] rest].
    + cbn. intros [<- | [<- | []]]; exact I.
    + destruct (Z.of_nat (length (firstn (Z.to_nat BUFFER_SIZE) payload)) <=? 0).
      * cbn. intros [<- | [<- | []]]; exact I.
      * cbn [snd app In]. intros [<- | [<- | [<- | [<- | H]]]]; try exact I.
        apply (IH rest e H).
    + cbn. intros [<- | [<- | []]]; exact I.
Qed.

Lemma drain_full fd now :
  forall budget pending,
    (budget <= length pending)%nat ->
    forallb nonempty_datagram (firstn budget pending) = true ->
    fst (drain budget fd now pending) =
      (flat_map (response_of_arrival now) (firstn budget pending), skipn budget pending).
Proof.
  induction budget as [| budget IH]; intros pending Hl Hn; [reflexivity | ].
  destruct pending as [| a rest]; [cbn in Hl; lia | ].
  cbn [firstn forallb] in Hn. apply andb_prop in Hn. destruct Hn as [Ha Hn].
  destruct a as [from payload | ]; [ | discriminate].
  cbn [drain].
  destruct (Z.leb_spec (Z.of_nat (length (firstn (Z.to_nat BUFFER_SIZE) payload))) 0) as [Hz | Hz].
  - destruct payload as [| b payload]; [discriminate | ].
    rewrite length_firstn in Hz. cbn [length] in Hz.
    assert (1 <= Z.to_nat BUFFER_SIZE)%nat by (unfold BUFFER_SIZE; lia). lia.
  - cbn [fst snd firstn skipn flat_map response_of_arrival app].
    cbn [length] in Hl. rewrite (surjective_pairing (fst (drain budget fd now rest))).
    rewrite IH by (lia || assumption). reflexivity.
Qed.

(** *** [Udp::notify] and [Udp::idle] *)

Lemma notify_closed s :
  _fd (udp s) < 0 -> notify s = mk_Out (Val tt) s [EvRead F_fd].
Proof.
  intros H. unfold notify. prims.
  destruct (Z.ltb_spec (_fd (udp s)) 0); [reflexivity | lia].
Qed.

(** The fuel [Udp::notify] gives the loop suffices: the loop ends by
    itself. *)
Lemma receive_loop_notify now s :
  receive_loop 1024 now 0 s =
    mk_Out (Val true)
      (set_inbound (snd (fst (drain 1024 (_fd (udp s)) now (inbound (os s)))))
         (set_responses
            (_responses (udp s) ++ fst (fst (drain 1024 (_fd (udp s)) now (inbound (os s))))) s))
      (snd (drain 1024 (_fd (udp s)) now (inbound (os s)))).
Proof.
  apply (receive_loop_drain now 1024 1024 s); lia.
Qed.

Lemma notify_open s :
  0 <= _fd (udp s) ->
  notify s =
    if ptr_eqb (_idle (udp s)) nullptr then
      mk_Out (Val tt)
        (with_loop (snd (Loop_idle (loop s)))
           (set_idle (Npos (next_token (loop s))) (drained s)))
        (drained_events s
         ++ [EvRead F_core; EvLoopIdle (Npos (next_token (loop s))); EvWrite F_idle])
    else mk_Out (Val tt) (drained s) (drained_events s).
Proof.
  intros H. unfold notify.
  remember (receive_loop 1024) as R eqn:HR.
  prims. destruct (Z.ltb_spec (_fd (udp s)) 0); [lia | ].
  prims. subst R. rewrite receive_loop_notify.
  unfold drained, drained_events.
  generalize (drain 1024 (_fd (udp s)) (clock (os s)) (inbound (os s))).
  intros d. prims.
  destruct (ptr_eqb (_idle (udp s)) nullptr); cbn [negb]; prims;
    rewrite ?app_nil_r, <- ?app_assoc; reflexivity.
Qed.

Lemma Response_ip_throws r e :
  Response_ip r = inr e -> e = runtime_error "unsupported address family".
Proof.
  unfold Response_ip, Ip_of_sockaddr.
  destruct (sa_family (response_from r) =? AF_INET); [discriminate | ].
  destruct (sa_family (response_from r) =? AF_INET6); [discriminate | ].
  congruence.
Qed.

Lemma idle_empty s :
  _responses (udp s) = [] ->
  idle s = mk_Out (Val tt) (final (stop s)) (EvRead F_responses :: events (stop s))
  /\ res (stop s) = Val tt.
Proof.
  intros H. unfold idle. prims. rewrite H. prims.
  destruct (N.eq_dec (_idle (udp s)) nullptr) as [E | E].
  - rewrite stop_disarmed by assumption. split; reflexivity.
  - rewrite stop_armed by assumption. split; reflexivity.
Qed.

Lemma idle_front s r rest :
  _responses (udp s) = r :: rest ->
  idle s = mk_Out (Val tt) (set_responses rest s) (idle_events r).
Proof.
  intros H. unfold idle, idle_events.
  prims. rewrite H. prims. rewrite H. cbn [tl firstn]. prims.
  destruct (Response_ip r) as [ip | e] eqn:E.
  - prims. reflexivity.
  - rewrite (Response_ip_throws r e E). prims. reflexivity.
Qed.

Lemma idle_returns s : res (idle s) = Val tt.
Proof.
  destruct (_responses (udp s)) as [| r rest] eqn:E.
  - destruct (idle_empty s E) as [-> _]. reflexivity.
  - rewrite (idle_front s r rest E). reflexivity.
Qed.

Lemma deliveries_idle_events r : deliveries (idle_events r) = delivery_of r.
Proof.
  unfold idle_events, delivery_of, deliveries.
  destruct (Response_ip r); reflexivity.
Qed.

Lemma deliveries_stop s : deliveries (events (stop s)) = [].
Proof.
  destruct (N.eq_dec (_idle (udp s)) nullptr) as [E | E].
  - rewrite stop_disarmed by assumption. reflexivity.
  - rewrite stop_armed by assumption. reflexivity.
Qed.

(** [n] invocations of [Udp::idle] on a queue: they take its first [n]
    items, one each, and those past the end of the queue deliver nothing. *)
Lemma idle_times_queue :
  forall n s,
    (n <= length (_responses (udp s)))%nat ->
    fst (idle_times n s) = set_responses (skipn n (_responses (udp s))) s
    /\ snd (idle_times n s) = map idle_events (firstn n (_responses (udp s))).
Proof.
  induction n as [| n IH]; intros s Hn.
  - cbn. split; [ | reflexivity]. eta_state s. reflexivity.
  - destruct (_responses (udp s)) as [| r rest] eqn:E; [cbn in Hn; lia | ].
    cbn [idle_times]. rewrite (idle_front s r rest E). cbn [final events].
    cbn [length] in Hn.
    specialize (IH (set_responses rest s)).
    destruct (idle_times n (set_responses rest s)) as [s' evs].
    cbn [fst snd] in *. cbn [skipn firstn map].
    destruct IH as [-> ->]; [cbn; lia | ].
    split; reflexivity.
Qed.

Lemma idle_times_deliveries :
  forall n s,
    map deliveries (snd (idle_times n s)) =
      map delivery_of (firstn n (_responses (udp s)))
      ++ repeat [] (n - length (_responses (udp s))).
Proof.
  induction n as [| n IH]; intros s; [reflexivity | ].
  cbn [idle_times].
  specialize (IH (final (idle s))).
  destruct (idle_times n (final (idle s))) as [s' evs]. cbn [snd map] in *.
  rewrite IH.
  destruct (_responses (udp s)) as [| r rest] eqn:E.
  - destruct (idle_empty s E) as [-> _]. cbn [final events].
    assert (Hq : _responses (udp (final (stop s))) = []).
    { destruct (N.eq_dec (_idle (udp s)) nullptr) as [Hi | Hi].
      - rewrite stop_disarmed by assumption. cbn. assumption.
      - rewrite stop_armed by assumption. cbn. assumption. }
    rewrite Hq. cbn [length firstn map app]. rewrite firstn_nil. cbn [map app].
    change (deliveries (EvRead F_responses :: events (stop s)))
      with (deliveries (events (stop s))).
    rewrite deliveries_stop. rewrite Nat.sub_0_r. reflexivity.
  - rewrite (idle_front s r rest E). cbn [final events].
    rewrite deliveries_idle_events. reflexivity.
Qed.

(** *** [Udp::send] *)

Lemma bind_val {A B} (m : M A) (f : A -> M B) s a s1 evs1 :
  m s = mk_Out (Val a) s1 evs1 ->
  bind m f s = mk_Out (res (f a s1)) (final (f a s1)) (evs1 ++ events (f a s1)).
Proof.
  intros E. unfold bind. rewrite E. destruct (f a s1); reflexivity.
Qed.

Lemma rd_fd_out s : rd_fd s = mk_Out (Val (_fd (udp s))) s [EvRead F_fd].
Proof. reflexivity. Qed.

Lemma ret_out {A} (a : A) s : ret a s = mk_Out (Val a) s [].
Proof. reflexivity. Qed.

Lemma sys_sendto_out fd data size flags address addrlen s :
  sys_sendto fd data size flags address addrlen s =
    mk_Out (Val (sendto_return fd size address s))
           (sendto_final fd data address s)
           [EvSendto fd size flags address (sendto_return fd size address s)].
Proof.
  unfold sys_sendto, sendto_return, sendto_final, sendto_ok. prims.
  destruct (lookup_socket fd (sockets (os s))) as [domain | ]; [ | reflexivity].
  destruct (domain =? sa_family address); reflexivity.
Qed.

Lemma notify_returns s : res (notify s) = Val tt.
Proof.
  destruct (Z.ltb_spec (_fd (udp s)) 0).
  - rewrite notify_closed by assumption. reflexivity.
  - rewrite notify_open by assumption.
    destruct (ptr_eqb (_idle (udp s)) nullptr); reflexivity.
Qed.

Lemma pre_send_drain_returns s : res (pre_send_drain s) = Val tt.
Proof.
  unfold pre_send_drain. destruct (inbound (os s)); [reflexivity | apply notify_returns].
Qed.

Lemma send_sockaddr_open address size query s :
  0 <= _fd (udp s) ->
  send_sockaddr address size query s =
    let o := pre_send_drain s in
    mk_Out (Val (0 <=? sendto_return (_fd (udp (final o))) (Query_size query) address (final o)))
           (sendto_final (_fd (udp (final o))) (Query_data query) address (final o))
           (events (readable s) ++ events o
            ++ [EvRead F_fd;
                EvSendto (_fd (udp (final o))) (Query_size query) MSG_NOSIGNAL address
                  (sendto_return (_fd (udp (final o))) (Query_size query) address (final o))]).
Proof.
  intros H. unfold send_sockaddr. cbv zeta.
  pose proof (pre_send_drain_returns s) as Hr.
  assert (Ho : (if match inbound (os s) with [] => false | _ => true end
                then notify else ret tt) s = pre_send_drain s).
  { unfold pre_send_drain. destruct (inbound (os s)); reflexivity. }
  destruct (pre_send_drain s) as [r s1 evs1]. cbn [res final events] in *. subst r.
  erewrite bind_val by (apply readable_open; assumption).
  erewrite bind_val by exact Ho.
  erewrite bind_val by apply rd_fd_out.
  erewrite bind_val by apply sys_sendto_out.
  rewrite ret_out. cbn [res final events]. rewrite readable_open by assumption.
  cbn [events app]. reflexivity.
Qed.

Lemma send_sockaddr_returns address size query s :
  0 <= _fd (udp s) -> exists b, res (send_sockaddr address size query s) = Val b.
Proof.
  intros H. rewrite send_sockaddr_open by assumption. cbv zeta. cbn [res]. eauto.
Qed.

Lemma send_open ip query s :
  0 <= _fd (udp s) ->
  send ip query s =
    let o := send_sockaddr (destination ip) (sizeof_destination ip) query s in
    mk_Out (res o) (final o) (EvRead F_fd :: events o).
Proof.
  intros H. unfold send, destination, sizeof_destination.
  erewrite bind_val by apply rd_fd_out.
  destruct (Z.ltb_spec (_fd (udp s)) 0); [lia | ].
  erewrite bind_val by apply ret_out.
  destruct (Ip_version ip =? 6); reflexivity.
Qed.

Lemma send_exhausted ip query s :
  _fd (udp s) < 0 -> fd_supply (os s) = [] ->
  send ip query s =
    mk_Out (Val false)
      (with_udp (mk_Udp (-1) (_identifier (udp s)) (_idle (udp s)) (_responses (udp s))) s)
      [EvRead F_fd; EvRead F_fd;
       EvSocket (family_of_version (Ip_version ip)) (Z.lor SOCK_DGRAM SOCK_CLOEXEC) 0 (-1);
       EvWrite F_fd; EvRead F_fd].
Proof.
  intros H E. unfold send.
  erewrite bind_val by apply rd_fd_out.
  destruct (Z.ltb_spec (_fd (udp s)) 0); [ | lia].
  erewrite bind_val.
  2:{ erewrite bind_val by (apply open_exhausted; assumption).
      rewrite ret_out. cbn [res final events negb app]. reflexivity. }
  cbn [negb]. rewrite ret_out. cbn [res final events app]. reflexivity.
Qed.

Lemma send_fresh ip query s n rest :
  _fd (udp s) < 0 -> fd_supply (os s) = n :: rest ->
  send ip query s =
    let o1 := open (Ip_version ip) s in
    let o := send_sockaddr (destination ip) (sizeof_destination ip) query (final o1) in
    mk_Out (res o) (final o) (EvRead F_fd :: events o1 ++ events o).
Proof.
  intros H E. unfold send, destination, sizeof_destination.
  erewrite bind_val by apply rd_fd_out.
  destruct (Z.ltb_spec (_fd (udp s)) 0); [ | lia].
  erewrite bind_val.
  2:{ erewrite bind_val by (apply (open_fresh _ _ n rest); assumption).
      rewrite ret_out. cbn [res final events negb]. rewrite app_nil_r. reflexivity. }
  cbn [negb]. rewrite (open_fresh _ _ n rest) by assumption. cbv zeta. cbn [final events].
  destruct (Ip_version ip =? 6); reflexivity.
Qed.

(** ** The invariant *)

Lemma ptr_eqb_refl p : ptr_eqb p p = true.
Proof. apply N.eqb_refl. Qed.

Lemma ptr_eqb_null p : ptr_eqb p nullptr = false <-> p <> nullptr.
Proof.
  unfold ptr_eqb. destruct (N.eqb_spec p nullptr); split; congruence.
Qed.

Lemma Inv_initial size fds : Inv (initial size fds).
Proof.
  unfold Inv, initial. cbn. split; [left; auto | split; [reflexivity | congruence]].
Qed.

Lemma Inv_closed s : Inv s -> _fd (udp s) < 0 -> _fd (udp s) = -1.
Proof.
  intros [[(H & _) | (H & _)] _] Hc; [assumption | lia].
Qed.

Lemma Inv_idlers s :
  Inv s -> idlers (loop s) = if armed s then [_idle (udp s)] else [].
Proof.
  intros (_ & H & _). rewrite H. unfold armed.
  destruct (ptr_eqb (_idle (udp s)) nullptr); reflexivity.
Qed.

Lemma Inv_open version s : Inv s -> Inv (final (open version s)).
Proof.
  intros HI. destruct (Z.leb_spec 0 (_fd (udp s))) as [Ho | Hc].
  - rewrite open_already by assumption. assumption.
  - pose proof (Inv_closed s HI Hc) as Hfd.
    destruct HI as ([(_ & Hid & Hm) | (H & _)] & Hi & Hq); [ | lia].
    destruct (fd_supply (os s)) as [| n rest] eqn:E.
    + rewrite open_exhausted by assumption. unfold Inv. cbn. auto.
    + rewrite (open_fresh version s n rest) by assumption. unfold Inv. cbn.
      rewrite Hm. split; [right | auto].
      split; [lia | ]. split; [discriminate | reflexivity].
Qed.

Lemma Inv_close s : Inv s -> Inv (final (close s)).
Proof.
  intros HI. destruct (Z.ltb_spec (_fd (udp s)) 0) as [Hc | Ho].
  - rewrite close_closed by assumption. assumption.
  - rewrite close_open by assumption.
    destruct HI as ([(H & _) | (_ & Hid & Hm)] & Hi & Hq); [lia | ].
    unfold Inv. cbn. split; [left | auto].
    split; [reflexivity | ]. split; [reflexivity | ].
    rewrite Hm. cbn. rewrite ptr_eqb_refl, Z.eqb_refl. reflexivity.
Qed.

Lemma Inv_readable s : Inv s -> Inv (final (readable s)).
Proof.
  intros HI. destruct (Z.ltb_spec (_fd (udp s)) 0) as [Hc | Ho].
  - rewrite readable_closed by assumption. assumption.
  - rewrite readable_open by assumption. assumption.
Qed.

Lemma Inv_notify s : Inv s -> Inv (final (notify s)).
Proof.
  intros HI. destruct (Z.ltb_spec (_fd (udp s)) 0) as [Hc | Ho].
  - rewrite notify_closed by assumption. assumption.
  - rewrite notify_open by assumption. unfold drained.
    generalize (drain 1024 (_fd (udp s)) (clock (os s)) (inbound (os s))). intros d.
    destruct HI as (Hf & Hi & Hq).
    destruct (ptr_eqb (_idle (udp s)) nullptr) eqn:E; unfold Inv; cbn.
    + rewrite Hi. cbn. split; [assumption | ]. split; [reflexivity | discriminate].
    + split; [assumption | ]. rewrite E. split; [assumption | ].
      intros _. apply ptr_eqb_null. assumption.
Qed.

Lemma Inv_idle s : Inv s -> Inv (final (idle s)).
Proof.
  intros HI. destruct (_responses (udp s)) as [| r rest] eqn:E.
  - destruct (idle_empty s E) as [-> _]. cbn [final].
    destruct (N.eq_dec (_idle (udp s)) nullptr) as [Hn | Hn].
    + rewrite stop_disarmed by assumption. assumption.
    + rewrite stop_armed by assumption.
      destruct HI as (Hf & Hi & Hq). unfold Inv. cbn.
      split; [assumption | ]. split; [ | rewrite E; congruence].
      rewrite Hi. apply ptr_eqb_null in Hn. rewrite Hn. cbn.
      rewrite ptr_eqb_refl. reflexivity.
  - rewrite (idle_front s r rest E).
    destruct HI as (Hf & Hi & Hq). unfold Inv. cbn.
    split; [assumption | ]. split; [assumption | ].
    intros _. apply Hq. rewrite E. discriminate.
Qed.

Lemma Inv_sendto fd data address s : Inv s -> Inv (sendto_final fd data address s).
Proof.
  unfold sendto_final. destruct (sendto_ok fd address s); auto.
Qed.

Lemma Inv_pre_send_drain s : Inv s -> Inv (final (pre_send_drain s)).
Proof.
  unfold pre_send_drain. destruct (inbound (os s)); [auto | apply Inv_notify].
Qed.

Lemma Inv_send_sockaddr address size query s :
  0 <= _fd (udp s) -> Inv s -> Inv (final (send_sockaddr address size query s)).
Proof.
  intros Ho HI. rewrite send_sockaddr_open by assumption. cbv zeta. cbn [final].
  apply Inv_sendto, Inv_pre_send_drain, HI.
Qed.

Lemma Inv_send ip query s : Inv s -> Inv (final (send ip query s)).
Proof.
  intros HI. destruct (Z.ltb_spec (_fd (udp s)) 0) as [Hc | Ho].
  - destruct (fd_supply (os s)) as [| n rest] eqn:E.
    + rewrite send_exhausted by assumption. cbn [final].
      pose proof (Inv_open 4 s HI) as H.
      rewrite open_exhausted in H by assumption. exact H.
    + rewrite (send_fresh ip query s n rest) by assumption. cbv zeta. cbn [final].
      apply Inv_send_sockaddr; [ | apply Inv_open, HI].
      rewrite (open_fresh _ s n rest) by assumption. cbn. lia.
  - rewrite send_open by assumption. cbv zeta. cbn [final].
    apply Inv_send_sockaddr; assumption.
Qed.

Lemma forget_out {A} (m : M A) s :
  final (forget m s) = final (m s) /\ events (forget m s) = events (m s).
Proof.
  unfold forget, bind. destruct (m s) as [[a | e] s1 evs1]; cbn.
  - rewrite app_nil_r. auto.
  - auto.
Qed.

Lemma Inv_call c s : Inv s -> Inv (final (call c s)).
Proof.
  intros HI. destruct c as [version | | | | | ip query]; cbn [call];
    rewrite ?(proj1 (forget_out _ _)).
  - apply Inv_open, HI.
  - apply Inv_close, HI.
  - apply Inv_readable, HI.
  - apply Inv_notify, HI.
  - apply Inv_idle, HI.
  - apply Inv_send, HI.
Qed.

Lemma Inv_step x s : Inv s -> Inv (step x s).
Proof.
  intros HI. destruct x as [c | a | now | fd]; cbn [step].
  - apply Inv_call, HI.
  - destruct (lookup_socket (_fd (udp s)) (sockets (os s))); exact HI.
  - exact HI.
  - exact HI.
Qed.

Lemma Inv_run xs : forall s, Inv s -> Inv (run xs s).
Proof.
  unfold run. induction xs as [| x xs IH]; intros s HI; cbn [fold_left].
  - exact HI.
  - apply IH, Inv_step, HI.
Qed.

Lemma Inv_reachable s : reachable s -> Inv s.
Proof.
  intros (size & fds & xs & ->). apply Inv_run, Inv_initial.
Qed.

(** The destructor closes the socket and disarms the watcher. *)
Lemma destruct_Udp_tears_down s :
  let o := destruct_Udp s in
  res o = Val tt
  /\ _fd (udp (final o)) < 0
  /\ _idle (udp (final o)) = nullptr
  /\ _responses (udp (final o)) = _responses (udp s).
Proof.
  intros o. subst o. unfold destruct_Udp.
  assert (Hc : exists b s1 evs1,
             close s = mk_Out (Val b) s1 evs1
             /\ _fd (udp s1) < 0 /\ _responses (udp s1) = _responses (udp s)).
  { destruct (Z.ltb_spec (_fd (udp s)) 0) as [Hc | Ho].
    - rewrite close_closed by assumption. eauto 6.
    - rewrite close_open by assumption. do 3 eexists. split; [reflexivity | ].
      cbn. split; [lia | reflexivity]. }
  destruct Hc as (b & s1 & evs1 & E & Hfd & Hq).
  erewrite bind_val by exact E. cbn [res final].
  destruct (N.eq_dec (_idle (udp s1)) nullptr) as [Hn | Hn].
  - rewrite stop_disarmed by assumption. cbn. auto.
  - rewrite stop_armed by assumption. cbn. auto.
Qed.

(** ** Closing, polling and notifying a closed transport *)

(** C7: on an open transport, the first of two successive [close()] calls
    returns true and unregisters from the event loop exactly once; the second
    returns false, unregisters nothing and leaves the state as it is. *)
Theorem close_twice (s : State) :
  0 <= _fd (udp s) ->
  let first := close s in
  let second := close (final first) in
  res first = Val true
  /\ filter is_unregistration (events first)
     = [EvLoopRemove (_identifier (udp s)) (_fd (udp s))]
  /\ loop (final first) = Loop_remove (_identifier (udp s)) (_fd (udp s)) (loop s)
  /\ res second = Val false
  /\ filter is_unregistration (events second) = []
  /\ final second = final first.
Proof.
  intros H first second. subst second first.
  rewrite (close_open s H). cbn [final res events].
  rewrite close_closed by (cbn; lia).
  cbn. repeat split; reflexivity.
Qed.

Lemma close_twice_witness :
  0 <= _fd (udp opened_example)
  /\ res (close (final (close opened_example))) = Val false.
Proof.
  split; [vm_compute; discriminate | ].
  apply (close_twice opened_example). vm_compute. discriminate.
Defined.

(** C9: [readable()] on a closed transport returns false, and no [poll] is
    made: the one thing it does is read [_fd]. *)
Theorem readable_closed_is_false (s : State) :
  _fd (udp s) < 0 ->
  res (readable s) = Val false
  /\ filter is_poll (events (readable s)) = []
  /\ events (readable s) = [EvRead F_fd]
  /\ final (readable s) = s.
Proof.
  intros H. rewrite (readable_closed s H). cbn. repeat split; reflexivity.
Qed.

Lemma readable_closed_is_false_witness :
  _fd (udp (initial 0 [])) < 0 /\ res (readable (initial 0 [])) = Val false.
Proof.
  split; [vm_compute; reflexivity | ].
  apply (readable_closed_is_false (initial 0 [])). vm_compute. reflexivity.
Defined.

(** C10: [notify()] on a closed transport returns at once: nothing is
    received, and the state, with the queue and the watcher in it, is what
    it was; the loop is asked neither to arm nor to cancel a watcher. *)
Theorem notify_closed_is_noop (s : State) :
  _fd (udp s) < 0 ->
  res (notify s) = Val tt
  /\ final (notify s) = s
  /\ events (notify s) = [EvRead F_fd]
  /\ count_recvfrom (events (notify s)) = 0%nat
  /\ _responses (udp (final (notify s))) = _responses (udp s)
  /\ _idle (udp (final (notify s))) = _idle (udp s)
  /\ idlers (loop (final (notify s))) = idlers (loop s).
Proof.
  intros H. rewrite (notify_closed s H). cbn. repeat split; reflexivity.
Qed.

Lemma notify_closed_is_noop_witness :
  _fd (udp (initial 0 [])) < 0 /\ final (notify (initial 0 [])) = initial 0 [].
Proof.
  split; [vm_compute; reflexivity | ].
  apply (notify_closed_is_noop (initial 0 [])). vm_compute. reflexivity.
Defined.

(** ** The idle dispatch *)

Ltac split_events E D :=
  repeat match type of E with
         | _ = ?before ++ _ :: _ =>
             destruct before as [| ? before]; cbn [app] in E;
             [ first [ discriminate E | injection E as <- ?; subst; try discriminate D ]
             | first [ discriminate E | injection E as <- E ] ]
         end.

Lemma idle_events_shape r :
  removal_precedes_delivery (idle_events r)
  /\ delivery_is_last (idle_events r)
  /\ no_access_after_delivery (idle_events r).
Proof.
  unfold removal_precedes_delivery, delivery_is_last, no_access_after_delivery, idle_events.
  destruct (Response_ip r) as [ip | e]; cbn [app];
    (split; [ | split]); intros before e0 after E D.
  - split_events E D. cbn. auto.
  - split_events E D. reflexivity.
  - split_events E D. intros x [].
  - split_events E D.
  - split_events E D.
  - split_events E D.
Qed.

(** C2: an invocation of [Udp::idle] on a non-empty queue returns normally
    having removed the front item and nothing else; the handler is called
    with that item, after [_responses] has been written; the handler call is
    the last event of the invocation, so no member is read or written after
    it; and whenever the address of the item can be reconstructed the
    invocation ends with that call. *)
Theorem idle_removes_then_calls (s : State) (r : Response) (rest : list Response) :
  _responses (udp s) = r :: rest ->
  let o := idle s in
  res o = Val tt
  /\ final o = set_responses rest s
  /\ deliveries (events o) = delivery_of r
  /\ removal_precedes_delivery (events o)
  /\ delivery_is_last (events o)
  /\ no_access_after_delivery (events o)
  /\ forall ip, Response_ip r = inl ip ->
       events o = [EvRead F_responses; EvRead F_responses; EvWrite F_responses;
                   EvRead F_handler]
                  ++ [EvOnReceived ip (response_data r) (Response_size r)].
Proof.
  intros H o. subst o. rewrite (idle_front s r rest H). cbn [res final events].
  destruct (idle_events_shape r) as (H1 & H2 & H3).
  repeat split; try assumption.
  - apply deliveries_idle_events.
  - intros ip E. unfold idle_events. rewrite E. reflexivity.
Qed.

Lemma idle_removes_then_calls_witness :
  _responses (udp queued_example)
  = mk_Response 0 source_example [x01]
    :: [mk_Response 0 stray_source [x02]; mk_Response 0 source_example [x03]]
  /\ deliveries (events (idle queued_example))
     = [EvOnReceived ip4_example [x01] 1].
Proof.
  split; [vm_compute; reflexivity | ].
  apply (idle_removes_then_calls queued_example
           (mk_Response 0 source_example [x01])
           [mk_Response 0 stray_source [x02]; mk_Response 0 source_example [x03]]).
  vm_compute. reflexivity.
Defined.

Lemma idle_on_empty s :
  _responses (udp s) = [] ->
  let o := idle s in
  res o = Val tt
  /\ _responses (udp (final o)) = []
  /\ _idle (udp (final o)) = nullptr
  /\ deliveries (events o) = []
  /\ filter is_cancel (events o)
     = (if armed s then [EvLoopCancel (_idle (udp s))] else [])
  /\ idlers (loop (final o))
     = (if armed s then idlers (Loop_cancel (_idle (udp s)) (loop s)) else idlers (loop s)).
Proof.
  intros E o. subst o. destruct (idle_empty s E) as [-> _]. cbn [res final events].
  unfold armed. destruct (N.eq_dec (_idle (udp s)) nullptr) as [Hn | Hn].
  - rewrite stop_disarmed by assumption. rewrite Hn. cbn.
    repeat split; assumption.
  - rewrite stop_armed by assumption.
    apply ptr_eqb_null in Hn. rewrite Hn. cbn.
    repeat split; assumption.
Qed.

(** The idle dispatch on any queue, whatever the sources of its items: of
    a queue of N datagrams, the first [k]
    invocations of [Udp::idle] take the first [k], one each and in order of
    arrival, and call the handler for each of them whose source address can
    be reconstructed (for the others the invocation calls nothing); after N
    invocations the queue is empty and the watcher is as it was; invocation
    N+1 finds the queue empty, calls nothing, and disarms the watcher,
    cancelling it in the loop when it was armed. *)
Theorem idle_delivers_in_order (s : State) (k : nat) :
  (k <= length (_responses (udp s)))%nat ->
  let q := _responses (udp s) in
  let n := length q in
  (fst (idle_times k s) = set_responses (skipn k q) s
   /\ snd (idle_times k s) = map idle_events (firstn k q)
   /\ map deliveries (snd (idle_times k s)) = map delivery_of (firstn k q))
  /\ (fst (idle_times n s) = set_responses [] s
      /\ length (snd (idle_times n s)) = n
      /\ map deliveries (snd (idle_times n s)) = map delivery_of q)
  /\ (let o := idle (fst (idle_times n s)) in
      res o = Val tt
      /\ _responses (udp (final o)) = []
      /\ _idle (udp (final o)) = nullptr
      /\ deliveries (events o) = []
      /\ filter is_cancel (events o)
         = (if armed s then [EvLoopCancel (_idle (udp s))] else [])).
Proof.
  intros Hk q n. subst q n.
  assert (Hq : forall j, (j <= length (_responses (udp s)))%nat ->
            fst (idle_times j s) = set_responses (skipn j (_responses (udp s))) s
            /\ snd (idle_times j s) = map idle_events (firstn j (_responses (udp s)))
            /\ map deliveries (snd (idle_times j s))
               = map delivery_of (firstn j (_responses (udp s)))).
  { intros j Hj. destruct (idle_times_queue j s Hj) as [H1 H2].
    split; [assumption | ]. split; [assumption | ].
    rewrite idle_times_deliveries.
    replace (j - length (_responses (udp s)))%nat with 0%nat by lia.
    cbn [repeat]. apply app_nil_r. }
  split; [apply Hq, Hk | ].
  destruct (Hq (length (_responses (udp s))) (le_n _)) as (H1 & H2 & H3).
  rewrite skipn_all in H1. rewrite firstn_all in H2, H3.
  split.
  - split; [assumption | ]. split; [ | assumption].
    rewrite H2. apply length_map.
  - rewrite H1.
    destruct (idle_on_empty (set_responses [] s) eq_refl) as (R1 & R2 & R3 & R4 & R5 & _).
    repeat split; assumption.
Qed.

Lemma idle_delivers_in_order_witness :
  (2 <= length (_responses (udp queued_example)))%nat
  /\ map deliveries (snd (idle_times 2 queued_example))
     = [[EvOnReceived ip4_example [x01] 1]; []].
Proof.
  split; [vm_compute; lia | ].
  apply (idle_delivers_in_order queued_example 2). vm_compute. lia.
Defined.

(** C6, as the code has it: when the source address of the front item
    cannot be reconstructed, the invocation of [Udp::idle] returns normally
    (the exception is caught in it), having removed that item and touched
    nothing else; it calls no handler and reports nothing; the invariant of
    queue and watcher still holds; and the invocations that follow take the
    remaining items in order. *)
Theorem idle_swallows_bad_address
  (s : State) (r : Response) (rest : list Response) (e : exn) :
  Inv s ->
  _responses (udp s) = r :: rest ->
  Response_ip r = inr e ->
  let o := idle s in
  res o = Val tt
  /\ final o = set_responses rest s
  /\ events o = [EvRead F_responses; EvRead F_responses; EvWrite F_responses]
  /\ filter is_report (events o) = []
  /\ Inv (final o)
  /\ _idle (udp (final o)) = _idle (udp s)
  /\ fst (idle_times (length rest) (final o)) = set_responses [] s
  /\ map deliveries (snd (idle_times (length rest) (final o))) = map delivery_of rest.
Proof.
  intros HI H E o. subst o.
  pose proof (Inv_idle s HI) as HI'.
  rewrite (idle_front s r rest H) in *. cbn [res final events] in *.
  unfold idle_events. rewrite E. cbn [app filter is_report].
  split; [reflexivity | ]. split; [reflexivity | ]. split; [reflexivity | ].
  split; [reflexivity | ]. split; [assumption | ]. split; [reflexivity | ].
  split.
  - destruct (idle_times_queue (length rest) (set_responses rest s)) as [H1 _];
      [cbn; lia | ].
    rewrite H1. cbn. rewrite skipn_all. reflexivity.
  - rewrite idle_times_deliveries. cbn.
    rewrite firstn_all, Nat.sub_diag. cbn [repeat]. apply app_nil_r.
Qed.

Lemma idle_swallows_bad_address_witness :
  _responses (udp stray_queued) = [mk_Response 0 stray_source [x07]]
  /\ final (idle stray_queued) = set_responses [] stray_queued.
Proof.
  split; [vm_compute; reflexivity | ].
  apply (idle_swallows_bad_address stray_queued (mk_Response 0 stray_source [x07]) []
           (runtime_error "unsupported address family")).
  - apply Inv_reachable. exists 0, [3%nat].
    exists [Calls (CallSend ip4_example query_example);
            Arrives (Datagram stray_source [x07]); Calls CallNotify].
    vm_compute. reflexivity.
  - vm_compute. reflexivity.
  - vm_compute. reflexivity.
Defined.

(** C6, as it is stated, fails in one point: nothing is logged. The
    invocation that meets the stray source address has three events, all of
    them accesses to [_responses], and none is a report. *)
Lemma idle_reports_nothing :
  Response_ip (mk_Response 0 stray_source [x07])
  = inr (runtime_error "unsupported address family")
  /\ _responses (udp stray_queued) = [mk_Response 0 stray_source [x07]]
  /\ res (idle stray_queued) = Val tt
  /\ events (idle stray_queued)
     = [EvRead F_responses; EvRead F_responses; EvWrite F_responses]
  /\ ~ exists what, In (EvReport what) (events (idle stray_queued)).
Proof.
  split; [vm_compute; reflexivity | ]. split; [vm_compute; reflexivity | ].
  split; [vm_compute; reflexivity | ].
  assert (H : events (idle stray_queued)
              = [EvRead F_responses; EvRead F_responses; EvWrite F_responses])
    by (vm_compute; reflexivity).
  split; [exact H | ].
  rewrite H. intros [what [D | [D | [D | []]]]]; discriminate D.
Qed.

(** C8: [close()] writes [_fd] and [_identifier] and no other member: the
    queue, the watcher and the idle registrations of the loop are what they
    were, so the invocations of [Udp::idle] that follow call the handler
    exactly as they would have without the [close()], that is, for the
    queued datagrams in order, until the queue is empty. *)
Theorem close_keeps_queue (s : State) (n : nat) :
  let s' := final (close s) in
  _responses (udp s') = _responses (udp s)
  /\ _idle (udp s') = _idle (udp s)
  /\ idlers (loop s') = idlers (loop s)
  /\ written_fields (events (close s))
     = (if _fd (udp s) <? 0 then [] else [F_fd; F_identifier])
  /\ map deliveries (snd (idle_times n s')) = map deliveries (snd (idle_times n s))
  /\ map deliveries (snd (idle_times (length (_responses (udp s))) s'))
     = map delivery_of (_responses (udp s))
  /\ _responses (udp (fst (idle_times (length (_responses (udp s))) s'))) = [].
Proof.
  intros s'.
  assert (Hq : _responses (udp s') = _responses (udp s)
               /\ _idle (udp s') = _idle (udp s)
               /\ idlers (loop s') = idlers (loop s)
               /\ written_fields (events (close s))
                  = (if _fd (udp s) <? 0 then [] else [F_fd; F_identifier])).
  { subst s'. destruct (Z.ltb_spec (_fd (udp s)) 0) as [Hc | Ho].
    - rewrite close_closed by assumption. cbn. auto.
    - rewrite close_open by assumption. cbn. auto. }
  destruct Hq as (H1 & H2 & H3 & H4).
  repeat split; try assumption.
  - rewrite !idle_times_deliveries. rewrite H1. reflexivity.
  - rewrite idle_times_deliveries. rewrite H1.
    rewrite firstn_all, Nat.sub_diag. cbn [repeat]. apply app_nil_r.
  - destruct (idle_times_queue (length (_responses (udp s))) s') as [H5 _];
      [rewrite H1; lia | ].
    rewrite H5. cbn. rewrite H1. apply skipn_all.
Qed.

(** ** The drain *)

Lemma count_recvfrom_app evs1 evs2 :
  count_recvfrom (evs1 ++ evs2) = (count_recvfrom evs1 + count_recvfrom evs2)%nat.
Proof.
  unfold count_recvfrom. rewrite filter_app. apply length_app.
Qed.

Lemma notify_open_summary s :
  0 <= _fd (udp s) ->
  let d := drain 1024 (_fd (udp s)) (clock (os s)) (inbound (os s)) in
  let o := notify s in
  res o = Val tt
  /\ _responses (udp (final o)) = _responses (udp s) ++ fst (fst d)
  /\ inbound (os (final o)) = snd (fst d)
  /\ count_recvfrom (events o) = count_recvfrom (snd d)
  /\ _fd (udp (final o)) = _fd (udp s)
  /\ clock (os (final o)) = clock (os s).
Proof.
  intros H d o. subst o. rewrite (notify_open s H).
  unfold drained, drained_events. fold d. generalize d. clear d. intros d.
  destruct (ptr_eqb (_idle (udp s)) nullptr); cbn [res final events];
    rewrite !count_recvfrom_app; cbn; repeat split; lia.
Qed.

(** C4: an invocation of [notify()] on an open socket calls [recvfrom] at
    most 1024 times, whatever is pending: what it appends to the queue are
    at most 1024 datagrams, taken from the head of what the kernel holds,
    and what it has not taken is still there, in order, for a later
    [notify()]. *)
Theorem notify_takes_at_most_1024 (s : State) :
  0 <= _fd (udp s) ->
  let o := notify s in
  res o = Val tt
  /\ (count_recvfrom (events o) <= 1024)%nat
  /\ exists captured consumed,
       _responses (udp (final o)) = _responses (udp s) ++ captured
       /\ inbound (os s) = consumed ++ inbound (os (final o))
       /\ (length captured <= length consumed)%nat
       /\ (length consumed <= count_recvfrom (events o))%nat
       /\ (length captured <= 1024)%nat.
Proof.
  intros H o. subst o.
  destruct (notify_open_summary s H) as (R & Hq & Hi & Hc & _).
  destruct (drain_bounds (_fd (udp s)) (clock (os s)) 1024 (inbound (os s)))
    as (B1 & B2 & consumed & B3 & B4 & B5).
  split; [exact R | ]. split; [rewrite Hc; exact B2 | ].
  exists (fst (fst (drain 1024 (_fd (udp s)) (clock (os s)) (inbound (os s))))), consumed.
  rewrite Hq, Hi, Hc.
  split; [reflexivity | ]. split; [exact B3 | ]. split; [exact B4 | ].
  split; [exact B5 | ]. lia.
Qed.

Lemma notify_takes_at_most_1024_witness :
  0 <= _fd (udp flood_example)
  /\ (count_recvfrom (events (notify flood_example)) <= 1024)%nat.
Proof.
  split; [vm_compute; discriminate | ].
  apply (notify_takes_at_most_1024 flood_example). vm_compute. discriminate.
Defined.

(** When at least 1024 datagrams with a payload are pending, one
    [notify()] takes exactly the first 1024, and the rest stays. *)
Lemma notify_full_batch s :
  0 <= _fd (udp s) ->
  (1024 <= length (inbound (os s)))%nat ->
  forallb nonempty_datagram (firstn 1024 (inbound (os s))) = true ->
  _responses (udp (final (notify s)))
  = _responses (udp s)
    ++ flat_map (response_of_arrival (clock (os s))) (firstn 1024 (inbound (os s)))
  /\ inbound (os (final (notify s))) = skipn 1024 (inbound (os s)).
Proof.
  intros H Hl Hn.
  destruct (notify_open_summary s H) as (_ & Hq & Hi & _).
  rewrite Hq, Hi.
  rewrite (drain_full (_fd (udp s)) (clock (os s)) 1024 (inbound (os s)) Hl Hn).
  split; reflexivity.
Qed.

(** With 1025 datagrams pending, the first [notify()] queues 1024 and
    leaves one, which the second [notify()] queues. *)
Example notify_flood :
  let once := final (notify flood_example) in
  let twice := final (notify once) in
  length (inbound (os flood_example)) = 1025%nat
  /\ length (_responses (udp once)) = 1024%nat
  /\ length (inbound (os once)) = 1%nat
  /\ length (_responses (udp twice)) = 1025%nat
  /\ length (inbound (os twice)) = 0%nat.
Proof.
  vm_compute. repeat split; reflexivity.
Qed.

(** ** The watcher *)

Lemma drains_app evs1 evs2 : drains (evs1 ++ evs2) = drains evs1 || drains evs2.
Proof. apply existsb_app. Qed.

Lemma drains_buffer_events fd size : drains (buffer_events fd size) = false.
Proof.
  unfold buffer_events. destruct (0 <? size); reflexivity.
Qed.

Lemma drains_drain fd now budget pending :
  drains (snd (drain (S budget) fd now pending)) = true.
Proof.
  cbn [drain]. destruct pending as [| [from payload | ] rest]; [reflexivity | | reflexivity].
  destruct (Z.of_nat (length (firstn (Z.to_nat BUFFER_SIZE) payload)) <=? 0); reflexivity.
Qed.

Lemma quiet_open version s : quiet s (open version s).
Proof.
  unfold quiet. destruct (Z.leb_spec 0 (_fd (udp s))) as [Ho | Hc].
  - rewrite open_already by assumption. split; reflexivity.
  - destruct (fd_supply (os s)) as [| n rest] eqn:E.
    + rewrite open_exhausted by assumption. split; reflexivity.
    + rewrite (open_fresh version s n rest) by assumption. cbn [final events udp _idle].
      split; [reflexivity | ].
      rewrite !drains_app, drains_buffer_events. reflexivity.
Qed.

Lemma quiet_close s : quiet s (close s).
Proof.
  unfold quiet. destruct (Z.ltb_spec (_fd (udp s)) 0) as [Hc | Ho].
  - rewrite close_closed by assumption. split; reflexivity.
  - rewrite close_open by assumption. split; reflexivity.
Qed.

Lemma quiet_readable s : quiet s (readable s).
Proof.
  unfold quiet. destruct (Z.ltb_spec (_fd (udp s)) 0) as [Hc | Ho].
  - rewrite readable_closed by assumption. split; reflexivity.
  - rewrite readable_open by assumption. split; reflexivity.
Qed.

Lemma notify_arms s :
  0 <= _fd (udp s) ->
  armed (final (notify s)) = true
  /\ drains (events (notify s)) = true
  /\ (armed s = true -> _idle (udp (final (notify s))) = _idle (udp s)).
Proof.
  intros H. rewrite (notify_open s H). unfold armed, drained, drained_events.
  pose proof (drains_drain (_fd (udp s)) (clock (os s)) 1023 (inbound (os s))) as Hd.
  change (S 1023) with 1024%nat in Hd.
  generalize dependent (drain 1024 (_fd (udp s)) (clock (os s)) (inbound (os s))).
  intros d Hd.
  destruct (ptr_eqb (_idle (udp s)) nullptr) eqn:E; cbn [final events udp _idle negb
    set_idle set_responses set_inbound with_udp with_loop with_os].
  - rewrite !drains_app, Hd. cbn. split; [reflexivity | ]. split; [reflexivity | discriminate].
  - rewrite E, !drains_app, Hd. cbn. auto.
Qed.

Lemma send_sockaddr_watch address size query s :
  0 <= _fd (udp s) ->
  let o := send_sockaddr address size query s in
  drains (events o) = negb (is_empty (inbound (os s)))
  /\ armed (final o) = armed s || drains (events o)
  /\ (armed s = true -> _idle (udp (final o)) = _idle (udp s)).
Proof.
  intros H o. subst o. rewrite send_sockaddr_open by assumption. cbv zeta.
  cbn [final events]. rewrite readable_open by assumption. cbn [events].
  assert (Hs : forall fd data a st, _idle (udp (sendto_final fd data a st)) = _idle (udp st)).
  { intros. unfold sendto_final. destruct sendto_ok; reflexivity. }
  unfold armed at 1. rewrite Hs. fold (armed (final (pre_send_drain s))).
  rewrite !drains_app. cbn [drains existsb is_recvfrom orb].
  rewrite orb_false_r.
  unfold pre_send_drain. destruct (inbound (os s)) as [| a rest].
  - cbn [ret final events drains existsb is_empty negb orb]. rewrite orb_false_r. auto.
  - destruct (notify_arms s H) as (H1 & H2 & H3).
    fold (drains (events (notify s))).
    rewrite H1, H2. cbn [is_empty negb orb]. rewrite !orb_true_r. auto.
Qed.

Lemma send_watch ip query s :
  let o := send ip query s in
  drains (events o)
  = ((0 <=? _fd (udp s)) || negb (is_empty (fd_supply (os s))))
    && negb (is_empty (inbound (os s)))
  /\ armed (final o) = armed s || drains (events o)
  /\ (armed s = true -> _idle (udp (final o)) = _idle (udp s)).
Proof.
  intros o. subst o. destruct (Z.leb_spec 0 (_fd (udp s))) as [Ho | Hc].
  - rewrite send_open by assumption. cbv zeta. cbn [final events].
    destruct (send_sockaddr_watch (destination ip) (sizeof_destination ip) query s Ho)
      as (H1 & H2 & H3).
    change (drains (EvRead F_fd :: ?l)) with (drains l).
    rewrite H1 in *. cbn [orb andb]. auto.
  - destruct (fd_supply (os s)) as [| n rest] eqn:E.
    + rewrite send_exhausted by assumption. cbn. unfold armed. cbn.
      rewrite orb_false_r. auto.
    + rewrite (send_fresh ip query s n rest) by assumption. cbv zeta. cbn [final events].
      destruct (quiet_open (Ip_version ip) s) as [Q1 Q2].
      assert (Hfd : 0 <= _fd (udp (final (open (Ip_version ip) s)))).
      { rewrite (open_fresh _ s n rest) by assumption. cbn. lia. }
      assert (Hin : inbound (os (final (open (Ip_version ip) s))) = inbound (os s)).
      { rewrite (open_fresh _ s n rest) by assumption. reflexivity. }
      destruct (send_sockaddr_watch (destination ip) (sizeof_destination ip) query _ Hfd)
        as (H1 & H2 & H3).
      change (drains (EvRead F_fd :: ?l)) with (drains l).
      rewrite drains_app, Q2. cbn [orb is_empty negb andb].
      unfold armed in *. rewrite Q1 in *. rewrite Hin in *.
      auto.
Qed.

Lemma idle_watch s :
  drains (events (idle s)) = false
  /\ armed (final (idle s)) = armed s && negb (is_empty (_responses (udp s)))
  /\ (armed (final (idle s)) = true -> _idle (udp (final (idle s))) = _idle (udp s)).
Proof.
  destruct (_responses (udp s)) as [| r rest] eqn:E.
  - destruct (idle_empty s E) as [-> _]. cbn [final events is_empty negb].
    rewrite andb_false_r. unfold armed.
    destruct (N.eq_dec (_idle (udp s)) nullptr) as [Hn | Hn].
    + rewrite stop_disarmed by assumption. cbn. rewrite Hn. cbn. auto.
    + rewrite stop_armed by assumption. cbn. split; [reflexivity | ].
      split; [reflexivity | discriminate].
  - rewrite (idle_front s r rest E). cbn [final events is_empty negb].
    rewrite andb_true_r. unfold armed, idle_events. cbn.
    split; [ | auto]. destruct (Response_ip r); reflexivity.
Qed.

(** C3, as the code has it: a call leaves the invariant of transport and
    loop in place, so the loop holds the one watcher [_idle] names when the
    transport is armed and none otherwise; a call other than the idle
    dispatch leaves the transport armed exactly when it was armed or a drain
    ran in the call, whether or not the drain produced an item; the idle
    dispatch leaves it armed exactly when it was armed and the queue was not
    empty; a watcher that stays armed stays the same watcher; and a drain
    runs in [notify()] on an open socket and in [send()] when the socket is
    open (or can be opened) and something is pending, and in no other call. *)
Theorem watcher_transitions (c : Call) (s : State) :
  Inv s ->
  let o := call c s in
  Inv (final o)
  /\ idlers (loop (final o)) = (if armed (final o) then [_idle (udp (final o))] else [])
  /\ armed (final o)
     = match c with
       | CallIdle => armed s && negb (is_empty (_responses (udp s)))
       | _ => armed s || drains (events o)
       end
  /\ (armed s = true -> armed (final o) = true ->
      _idle (udp (final o)) = _idle (udp s))
  /\ drains (events o)
     = match c with
       | CallNotify => 0 <=? _fd (udp s)
       | CallSend _ _ =>
           ((0 <=? _fd (udp s)) || negb (is_empty (fd_supply (os s))))
           && negb (is_empty (inbound (os s)))
       | _ => false
       end.
Proof.
  intros HI o. subst o.
  split; [apply Inv_call, HI | ].
  split; [apply Inv_idlers, Inv_call, HI | ].
  destruct c as [version | | | | | ip query]; cbn [call].
  - destruct (forget_out (open version) s) as [-> ->].
    destruct (quiet_open version s) as [Q1 Q2].
    unfold armed. rewrite Q1, Q2, orb_false_r. auto.
  - destruct (forget_out close s) as [-> ->].
    destruct (quiet_close s) as [Q1 Q2].
    unfold armed. rewrite Q1, Q2, orb_false_r. auto.
  - destruct (forget_out readable s) as [-> ->].
    destruct (quiet_readable s) as [Q1 Q2].
    unfold armed. rewrite Q1, Q2, orb_false_r. auto.
  - destruct (Z.leb_spec 0 (_fd (udp s))) as [Ho | Hc].
    + destruct (notify_arms s Ho) as (H1 & H2 & H3).
      rewrite H1, H2, orb_true_r. auto.
    + rewrite notify_closed by assumption. cbn. rewrite orb_false_r. auto.
  - destruct (idle_watch s) as (H1 & H2 & H3). auto.
  - destruct (forget_out (send ip query) s) as [-> ->].
    destruct (send_watch ip query s) as (H1 & H2 & H3). auto.
Qed.

Lemma watcher_transitions_witness :
  Inv opened_example
  /\ armed (final (call CallNotify opened_example))
     = armed opened_example || drains (events (call CallNotify opened_example)).
Proof.
  assert (H : Inv opened_example).
  { apply Inv_reachable. exists 0, [3%nat].
    exists [Calls (CallSend ip4_example query_example)]. vm_compute. reflexivity. }
  split; [exact H | ].
  apply (watcher_transitions CallNotify opened_example H).
Defined.

(** C3, as it is stated, fails in its first point: on an open socket on which
    nothing is pending, [notify()] arms the watcher although its drain has
    produced no item. *)
Lemma notify_arms_without_items :
  0 <= _fd (udp opened_example)
  /\ inbound (os opened_example) = []
  /\ armed opened_example = false
  /\ _responses (udp (final (notify opened_example))) = _responses (udp opened_example)
  /\ _responses (udp (final (notify opened_example))) = []
  /\ armed (final (notify opened_example)) = true
  /\ idlers (loop (final (notify opened_example)))
     = [_idle (udp (final (notify opened_example)))].
Proof.
  vm_compute. repeat split; try reflexivity. discriminate.
Qed.

(** ** Sending *)

Lemma filter_none {A} (p : A -> bool) (l : list A) :
  (forall x, In x l -> p x = false) -> filter p l = [].
Proof.
  induction l as [| a l IH]; intros H; [reflexivity | ].
  cbn [filter]. rewrite (H a (or_introl eq_refl)).
  apply IH. intros x Hx. apply H. right. exact Hx.
Qed.

Lemma drain_no_socket_call fd now budget pending :
  filter is_socket_call (snd (drain budget fd now pending)) = []
  /\ filter is_registration (snd (drain budget fd now pending)) = [].
Proof.
  split; apply filter_none; intros x Hx;
    pose proof (drain_events_shape fd now budget pending x Hx) as S;
    destruct x as [[] | [] | | | | | | | | | | | | | ]; try contradiction; reflexivity.
Qed.

Lemma notify_frame s :
  let o := notify s in
  _fd (udp (final o)) = _fd (udp s)
  /\ _identifier (udp (final o)) = _identifier (udp s)
  /\ monitors (loop (final o)) = monitors (loop s)
  /\ sockets (os (final o)) = sockets (os s)
  /\ filter is_socket_call (events o) = []
  /\ filter is_registration (events o) = [].
Proof.
  intros o. subst o. destruct (Z.ltb_spec (_fd (udp s)) 0) as [Hc | Ho].
  - rewrite notify_closed by assumption. cbn. repeat split; reflexivity.
  - rewrite notify_open by assumption. unfold drained, drained_events.
    destruct (drain_no_socket_call (_fd (udp s)) (clock (os s)) 1024 (inbound (os s)))
      as [D1 D2].
    generalize dependent (drain 1024 (_fd (udp s)) (clock (os s)) (inbound (os s))).
    intros d D1 D2.
    destruct (ptr_eqb (_idle (udp s)) nullptr); cbn [final events];
      rewrite !filter_app, D1, D2; cbn; repeat split; reflexivity.
Qed.

Lemma send_sockaddr_frame address size query s :
  0 <= _fd (udp s) ->
  let o := send_sockaddr address size query s in
  _fd (udp (final o)) = _fd (udp s)
  /\ _identifier (udp (final o)) = _identifier (udp s)
  /\ monitors (loop (final o)) = monitors (loop s)
  /\ sockets (os (final o)) = sockets (os s)
  /\ filter is_socket_call (events o) = []
  /\ filter is_registration (events o) = [].
Proof.
  intros H o. subst o. rewrite send_sockaddr_open by assumption. cbv zeta.
  cbn [final events]. rewrite readable_open by assumption. cbn [events].
  assert (Hp : let p := pre_send_drain s in
               _fd (udp (final p)) = _fd (udp s)
               /\ _identifier (udp (final p)) = _identifier (udp s)
               /\ monitors (loop (final p)) = monitors (loop s)
               /\ sockets (os (final p)) = sockets (os s)
               /\ filter is_socket_call (events p) = []
               /\ filter is_registration (events p) = []).
  { unfold pre_send_drain. destruct (inbound (os s)).
    - cbn. repeat split; reflexivity.
    - apply notify_frame. }
  cbv zeta in Hp. destruct Hp as (P1 & P2 & P3 & P4 & P5 & P6).
  generalize dependent (pre_send_drain s). intros p P1 P2 P3 P4 P5 P6.
  rewrite !filter_app, P5, P6.
  unfold sendto_final. destruct sendto_ok; cbn; repeat split; assumption.
Qed.

(** C5, as the code has it: [send()] on a closed transport asks the system
    for a socket of the family of the target's IP version; when there is
    none to be had it returns false, and state, loop and system are what
    they were (the call has five events, none of them a registration with
    the loop); when there is one, the transport is open for that version
    afterwards and registered once. On a transport that is already open,
    [send()] asks for no socket and uses the one it has, whatever version
    that was opened for. *)
Theorem send_opens_when_closed (ip : Ip) (query : Query) (s : State) :
  Inv s ->
  let o := send ip query s in
  if 0 <=? _fd (udp s) then
    filter is_socket_call (events o) = []
    /\ filter is_registration (events o) = []
    /\ _fd (udp (final o)) = _fd (udp s)
    /\ _identifier (udp (final o)) = _identifier (udp s)
    /\ sockets (os (final o)) = sockets (os s)
    /\ monitors (loop (final o)) = monitors (loop s)
  else
    match fd_supply (os s) with
    | [] =>
        o = mk_Out (Val false) s
              [EvRead F_fd; EvRead F_fd;
               EvSocket (family_of_version (Ip_version ip))
                        (Z.lor SOCK_DGRAM SOCK_CLOEXEC) 0 (-1);
               EvWrite F_fd; EvRead F_fd]
        /\ filter is_registration (events o) = []
    | n :: _ =>
        open_for (Ip_version ip) (final o)
        /\ _fd (udp (final o)) = Z.of_nat n
        /\ filter is_socket_call (events o)
           = [EvSocket (family_of_version (Ip_version ip))
                       (Z.lor SOCK_DGRAM SOCK_CLOEXEC) 0 (Z.of_nat n)]
        /\ filter is_registration (events o)
           = [EvLoopAdd (Z.of_nat n) 1 (_identifier (udp (final o)))]
        /\ monitors (loop (final o)) = [(_identifier (udp (final o)), Z.of_nat n)]
    end.
Proof.
  intros HI o. subst o. destruct (Z.leb_spec 0 (_fd (udp s))) as [Ho | Hc].
  - rewrite send_open by assumption. cbv zeta. cbn [final events filter is_socket_call
      is_registration].
    destruct (send_sockaddr_frame (destination ip) (sizeof_destination ip) query s Ho)
      as (F1 & F2 & F3 & F4 & F5 & F6).
    repeat split; assumption.
  - pose proof (Inv_closed s HI Hc) as Hfd.
    destruct (fd_supply (os s)) as [| n rest] eqn:E.
    + rewrite send_exhausted by assumption. split; [ | reflexivity].
      f_equal. rewrite <- Hfd. unfold with_udp. destruct s as [[] ? ? ?]. reflexivity.
    + rewrite (send_fresh ip query s n rest) by assumption. cbv zeta.
      cbn [final events filter is_socket_call is_registration].
      assert (Hn : 0 <= _fd (udp (final (open (Ip_version ip) s)))).
      { rewrite (open_fresh _ s n rest) by assumption. cbn. lia. }
      destruct (send_sockaddr_frame (destination ip) (sizeof_destination ip) query _ Hn)
        as (F1 & F2 & F3 & F4 & F5 & F6).
      rewrite !filter_app, F5, F6. unfold open_for. rewrite F1, F2, F3, F4.
      rewrite (open_fresh _ s n rest) by assumption.
      cbn [final events udp os loop _fd _identifier sockets monitors].
      destruct HI as ([(_ & _ & Hm) | (H & _)] & _); [ | lia]. rewrite Hm.
      unfold lookup_socket. cbn [find fst snd]. rewrite Z.eqb_refl.
      rewrite !filter_app. unfold buffer_events.
      destruct (0 <? buffersize s); cbn; repeat split; try reflexivity; lia.
Qed.

Lemma send_opens_when_closed_witness :
  Inv (initial 0 [])
  /\ send ip6_example query_example (initial 0 [])
     = mk_Out (Val false) (initial 0 [])
         [EvRead F_fd; EvRead F_fd;
          EvSocket AF_INET6 (Z.lor SOCK_DGRAM SOCK_CLOEXEC) 0 (-1);
          EvWrite F_fd; EvRead F_fd].
Proof.
  split; [apply Inv_initial | ].
  apply (send_opens_when_closed ip6_example query_example (initial 0 []) (Inv_initial 0 [])).
Defined.

(** C5, as it is stated, fails in its first point: a transport whose socket
    was opened for IPv4 does not open one for an IPv6 target; [send()] makes
    no [socket] call, and the socket it has is still the IPv4 one. *)
Lemma send_keeps_the_open_socket :
  let o := send ip6_example query_example opened_example in
  open_for 4 opened_example
  /\ Ip_version ip6_example = 6
  /\ filter is_socket_call (events o) = []
  /\ lookup_socket (_fd (udp (final o))) (sockets (os (final o))) = Some AF_INET
  /\ ~ open_for (Ip_version ip6_example) (final o).
Proof.
  cbv zeta. split; [split; vm_compute; [discriminate | reflexivity] | ].
  split; [reflexivity | ]. split; [vm_compute; reflexivity | ].
  split; [vm_compute; reflexivity | ].
  intros [_ H]. vm_compute in H. discriminate H.
Qed.

(** ** Runs on the example states *)

(** The first [send()] of a transport: the socket is opened for IPv4 and
    registered, nothing is pending, the query goes out. *)
Example first_send_events :
  events (send ip4_example query_example (initial 0 [3%nat]))
  = [EvRead F_fd; EvRead F_fd;
     EvSocket AF_INET (Z.lor SOCK_DGRAM SOCK_CLOEXEC) 0 3;
     EvWrite F_fd; EvRead F_fd; EvRead F_core; EvRead F_fd; EvRead F_core;
     EvLoopAdd 3 1 1%N; EvWrite F_identifier;
     EvRead F_fd; EvRead F_fd; EvPoll 3 POLLIN 0 0;
     EvRead F_fd;
     EvSendto 3 2 MSG_NOSIGNAL (sockaddr_in (htons 53) [x7f; x00; x00; x01]) 2].
Proof. vm_compute. reflexivity. Qed.

(** Three datagrams captured by one drain, the second with a stray source:
    four invocations of [Udp::idle] call the handler for the first and the
    third, in that order, and the fourth cancels the watcher. *)
Example dispatch_of_queued_example :
  map deliveries (snd (idle_times 4 queued_example))
  = [[EvOnReceived ip4_example [x01] 1]; []; [EvOnReceived ip4_example [x03] 1]; []]
  /\ armed queued_example = true
  /\ armed (fst (idle_times 3 queued_example)) = true
  /\ armed (fst (idle_times 4 queued_example)) = false
  /\ idlers (loop (fst (idle_times 4 queued_example))) = [].
Proof. vm_compute. repeat split; reflexivity. Qed.

(** A configured buffer size is applied to both buffers when the socket is
    opened. *)
Example open_sets_buffers :
  filter (fun e => match e with EvSetsockopt _ _ _ _ _ => true | _ => false end)
         (events (open 6 (initial 4096 [5%nat])))
  = [EvSetsockopt 5 SOL_SOCKET SO_SNDBUF 4096 0;
     EvSetsockopt 5 SOL_SOCKET SO_RCVBUF 4096 0].
Proof. vm_compute. reflexivity. Qed.

(** A datagram without payload ends the drain: [recvfrom] returns 0, and
    what is pending behind it waits for the next [notify()]. *)
Example empty_datagram_ends_drain :
  let s := set_inbound [Datagram source_example []; Datagram source_example [x01]]
                       opened_example in
  _responses (udp (final (notify s))) = []
  /\ inbound (os (final (notify s))) = [Datagram source_example [x01]]
  /\ count_recvfrom (events (notify s)) = 1%nat.
Proof. vm_compute. repeat split; reflexivity. Qed.

(** ** What the drain captures *)

Lemma Response_new_sized now from payload :
  0 < Z.of_nat (length (firstn (Z.to_nat BUFFER_SIZE) payload)) ->
  captured_at now
    (Response_new now from (firstn (Z.to_nat BUFFER_SIZE) payload)
       (Z.of_nat (length (firstn (Z.to_nat BUFFER_SIZE) payload)))).
Proof.
  intros H. unfold captured_at, well_sized, Response_size, Response_new.
  cbn [response_now response_data]. rewrite Nat2Z.id, firstn_all.
  split; [reflexivity | ]. split; [lia | ].
  rewrite length_firstn. unfold BUFFER_SIZE. lia.
Qed.

Lemma drain_captured fd now :
  forall budget pending,
    Forall (captured_at now) (fst (fst (drain budget fd now pending))).
Proof.
  induction budget as [| budget IH]; intros pending; cbn [drain].
  - constructor.
  - destruct pending as [| [from payload | ] rest]; try constructor.
    destruct (Z.leb_spec (Z.of_nat (length (firstn (Z.to_nat BUFFER_SIZE) payload))) 0).
    + constructor.
    + cbn [fst snd]. constructor; [apply Response_new_sized; lia | apply IH].
Qed.

Lemma drain_all fd now :
  forall budget pending,
    (length pending <= budget)%nat ->
    forallb nonempty_datagram pending = true ->
    fst (drain budget fd now pending)
    = (flat_map (response_of_arrival now) pending, []).
Proof.
  induction budget as [| budget IH]; intros pending Hl Hn.
  - destruct pending; [reflexivity | cbn in Hl; lia].
  - destruct pending as [| a rest]; [reflexivity | ].
    cbn [forallb] in Hn. apply andb_prop in Hn. destruct Hn as [Ha Hn].
    destruct a as [from payload | ]; [ | discriminate].
    cbn [drain].
    destruct (Z.leb_spec (Z.of_nat (length (firstn (Z.to_nat BUFFER_SIZE) payload))) 0)
      as [Hz | Hz].
    + destruct payload as [| b payload]; [discriminate | ].
      rewrite length_firstn in Hz. cbn [length] in Hz.
      assert (1 <= Z.to_nat BUFFER_SIZE)%nat by (unfold BUFFER_SIZE; lia). lia.
    + cbn [fst snd flat_map response_of_arrival app].
      cbn [length] in Hl. rewrite (surjective_pairing (fst (drain budget fd now rest))).
      rewrite IH by (lia || assumption). reflexivity.
Qed.

Lemma drain_stops fd now budget a rest :
  nonempty_datagram a = false ->
  fst (drain (S budget) fd now (a :: rest)) = ([], rest)
  /\ count_recvfrom (snd (drain (S budget) fd now (a :: rest))) = 1%nat.
Proof.
  intros H. cbn [drain]. destruct a as [from payload | ]; [ | split; reflexivity].
  destruct payload; [ | discriminate]. rewrite firstn_nil. split; reflexivity.
Qed.

Lemma drain_nothing_pending fd now budget :
  fst (drain budget fd now []) = ([], []).
Proof. destruct budget; reflexivity. Qed.

Lemma flat_map_responses_length now pending :
  forallb nonempty_datagram pending = true ->
  length (flat_map (response_of_arrival now) pending) = length pending.
Proof.
  induction pending as [| a rest IH]; intros H; [reflexivity | ].
  cbn [forallb] in H. apply andb_prop in H. destruct H as [Ha H].
  destruct a as [from payload | ]; [ | discriminate].
  cbn [flat_map response_of_arrival app length]. rewrite IH by assumption. reflexivity.
Qed.

(** ** Kinds of events *)

Lemma drain_events_none (p : event -> bool) fd now budget pending :
  (forall f, p (EvRead f) = false) ->
  (forall f, p (EvWrite f) = false) ->
  (forall a b c, p (EvRecvfrom a b c) = false) ->
  filter p (snd (drain budget fd now pending)) = [].
Proof.
  intros Hr Hw Hv. apply filter_none. intros x Hx.
  pose proof (drain_events_shape fd now budget pending x Hx) as S.
  destruct x; try contradiction; auto.
Qed.

Lemma notify_events_none (p : event -> bool) s :
  (forall f, p (EvRead f) = false) ->
  (forall f, p (EvWrite f) = false) ->
  (forall a b c, p (EvRecvfrom a b c) = false) ->
  p EvNow = false ->
  (forall tok, p (EvLoopIdle tok) = false) ->
  filter p (events (notify s)) = [].
Proof.
  intros Hr Hw Hv Hn Hi. destruct (Z.ltb_spec (_fd (udp s)) 0) as [Hc | Ho].
  - rewrite notify_closed by assumption. cbn. rewrite Hr. reflexivity.
  - rewrite notify_open by assumption. unfold drained, drained_events.
    pose proof (drain_events_none p (_fd (udp s)) (clock (os s)) 1024 (inbound (os s))
                  Hr Hw Hv) as D.
    generalize dependent (drain 1024 (_fd (udp s)) (clock (os s)) (inbound (os s))).
    intros d D.
    destruct (ptr_eqb (_idle (udp s)) nullptr); cbn [events];
      rewrite !filter_app, D; cbn; rewrite ?Hr, ?Hw, ?Hn, ?Hi; reflexivity.
Qed.

Lemma open_events_none (p : event -> bool) version s :
  (forall f, p (EvRead f) = false) ->
  (forall f, p (EvWrite f) = false) ->
  (forall a b c d, p (EvSocket a b c d) = false) ->
  (forall a b c d e, p (EvSetsockopt a b c d e) = false) ->
  (forall a b c, p (EvLoopAdd a b c) = false) ->
  filter p (events (open version s)) = [].
Proof.
  intros Hr Hw Hs Ho Ha. destruct (Z.leb_spec 0 (_fd (udp s))) as [Hopen | Hc].
  - rewrite open_already by assumption. cbn. rewrite Hr. reflexivity.
  - destruct (fd_supply (os s)) as [| n rest] eqn:E.
    + rewrite open_exhausted by assumption. cbn. rewrite !Hr, Hw, Hs. reflexivity.
    + rewrite (open_fresh version s n rest) by assumption. cbn [events].
      unfold buffer_events. destruct (0 <? buffersize s); cbn;
        rewrite ?Hr, ?Hw, ?Hs, ?Ho, ?Ha; reflexivity.
Qed.

Lemma pre_send_drain_events_none (p : event -> bool) s :
  (forall f, p (EvRead f) = false) ->
  (forall f, p (EvWrite f) = false) ->
  (forall a b c, p (EvRecvfrom a b c) = false) ->
  p EvNow = false ->
  (forall tok, p (EvLoopIdle tok) = false) ->
  filter p (events (pre_send_drain s)) = [].
Proof.
  intros. unfold pre_send_drain. destruct (inbound (os s)).
  - reflexivity.
  - apply notify_events_none; assumption.
Qed.

Lemma filter_weaker {A} (p q : A -> bool) (l : list A) :
  (forall x, p x = true -> q x = true) -> filter q l = [] -> filter p l = [].
Proof.
  intros H. induction l as [| a l IH]; [reflexivity | ].
  cbn [filter]. destruct (q a) eqn:Q; [discriminate | ].
  intros E. destruct (p a) eqn:P.
  - rewrite (H a P) in Q. discriminate.
  - apply IH, E.
Qed.

(** ** What a call does to the queue and to the kernel's receive queue *)

Lemma sendto_final_frame fd data address s :
  udp (sendto_final fd data address s) = udp s
  /\ loop (sendto_final fd data address s) = loop s
  /\ inbound (os (sendto_final fd data address s)) = inbound (os s)
  /\ clock (os (sendto_final fd data address s)) = clock (os s).
Proof.
  unfold sendto_final. destruct sendto_ok; cbn; repeat split; reflexivity.
Qed.

Lemma pre_send_drain_effect s :
  0 <= _fd (udp s) ->
  let d := drain 1024 (_fd (udp s)) (clock (os s)) (inbound (os s)) in
  let o := pre_send_drain s in
  _responses (udp (final o)) = _responses (udp s) ++ fst (fst d)
  /\ inbound (os (final o)) = snd (fst d)
  /\ _fd (udp (final o)) = _fd (udp s)
  /\ filter not_preparation (events o) = [].
Proof.
  intros H d o. subst d o.
  split; [ | split; [ | split]].
  4: { apply pre_send_drain_events_none; intros; reflexivity. }
  all: pose proof (notify_open_summary s H) as N; cbv zeta in N;
       destruct N as (_ & N1 & N2 & _ & N3 & _);
       unfold pre_send_drain; destruct (inbound (os s)) eqn:E.
  - rewrite drain_nothing_pending. cbn. symmetry. apply app_nil_r.
  - exact N1.
  - rewrite drain_nothing_pending. exact E.
  - exact N2.
  - reflexivity.
  - exact N3.
Qed.

Lemma send_sockaddr_effect address size query s :
  0 <= _fd (udp s) ->
  let d := drain 1024 (_fd (udp s)) (clock (os s)) (inbound (os s)) in
  let o := send_sockaddr address size query s in
  _responses (udp (final o)) = _responses (udp s) ++ fst (fst d)
  /\ inbound (os (final o)) = snd (fst d)
  /\ exists before ret,
       events o = before ++ [EvSendto (_fd (udp s)) (Query_size query) MSG_NOSIGNAL address ret]
       /\ res o = Val (0 <=? ret)
       /\ filter not_preparation before = [].
Proof.
  intros H d o. subst d o.
  destruct (pre_send_drain_effect s H) as (P1 & P2 & P3 & P4). cbv zeta in *.
  rewrite send_sockaddr_open by assumption. cbv zeta. cbn [res final events].
  rewrite readable_open by assumption. cbn [events].
  generalize dependent (pre_send_drain s). intros p P1 P2 P3 P4.
  destruct (sendto_final_frame (_fd (udp (final p))) (Query_data query) address (final p))
    as (F1 & _ & F3 & _).
  rewrite F1, F3, P3.
  split; [exact P1 | ]. split; [exact P2 | ].
  eexists ([EvRead F_fd; EvRead F_fd; EvPoll (_fd (udp s)) POLLIN 0 _]
           ++ events p ++ [EvRead F_fd]), _.
  split; [rewrite <- !app_assoc; reflexivity | ].
  split; [reflexivity | ].
  rewrite !filter_app, P4. reflexivity.
Qed.

Lemma send_effect ip query s :
  0 <= _fd (udp s) \/ fd_supply (os s) <> [] ->
  let o := send ip query s in
  exists fd,
    _fd (udp (final o)) = fd
    /\ _responses (udp (final o))
       = _responses (udp s) ++ fst (fst (drain 1024 fd (clock (os s)) (inbound (os s))))
    /\ inbound (os (final o)) = snd (fst (drain 1024 fd (clock (os s)) (inbound (os s))))
    /\ exists before ret,
         events o = before ++ [EvSendto fd (Query_size query) MSG_NOSIGNAL (destination ip) ret]
         /\ res o = Val (0 <=? ret)
         /\ filter not_preparation before = [].
Proof.
  intros H o. subst o. destruct (Z.leb_spec 0 (_fd (udp s))) as [Ho | Hc].
  - rewrite send_open by assumption. cbv zeta. cbn [res final events].
    destruct (send_sockaddr_effect (destination ip) (sizeof_destination ip) query s Ho)
      as (E1 & E2 & before & ret & E3 & E4 & E5).
    destruct (send_sockaddr_frame (destination ip) (sizeof_destination ip) query s Ho)
      as (F1 & _).
    exists (_fd (udp s)). split; [exact F1 | ]. split; [exact E1 | ]. split; [exact E2 | ].
    exists (EvRead F_fd :: before), ret. rewrite E3.
    split; [reflexivity | ]. split; [exact E4 | ]. cbn. exact E5.
  - destruct H as [H | H]; [lia | ].
    destruct (fd_supply (os s)) as [| n rest] eqn:E; [congruence | ].
    rewrite (send_fresh ip query s n rest) by assumption. cbv zeta. cbn [res final events].
    assert (Hp : filter not_preparation (events (open (Ip_version ip) s)) = [])
      by (apply open_events_none; intros; reflexivity).
    assert (Ho : _fd (udp (final (open (Ip_version ip) s))) = Z.of_nat n
                 /\ _responses (udp (final (open (Ip_version ip) s))) = _responses (udp s)
                 /\ inbound (os (final (open (Ip_version ip) s))) = inbound (os s)
                 /\ clock (os (final (open (Ip_version ip) s))) = clock (os s)).
    { rewrite (open_fresh _ s n rest) by assumption. cbn. repeat split; reflexivity. }
    destruct Ho as (O1 & O2 & O3 & O4).
    generalize dependent (open (Ip_version ip) s). intros o1 Hp O1 O2 O3 O4.
    assert (Hn : 0 <= _fd (udp (final o1))) by lia.
    destruct (send_sockaddr_effect (destination ip) (sizeof_destination ip) query _ Hn)
      as (E1 & E2 & before & ret & E3 & E4 & E5).
    destruct (send_sockaddr_frame (destination ip) (sizeof_destination ip) query _ Hn)
      as (F1 & _).
    rewrite O1, O2, O3, O4 in *.
    exists (Z.of_nat n). split; [exact F1 | ]. split; [exact E1 | ]. split; [exact E2 | ].
    exists (EvRead F_fd :: events o1 ++ before), ret. rewrite E3.
    split; [cbn [app]; rewrite app_assoc; reflexivity | ].
    split; [exact E4 | ].
    cbn [filter not_preparation preparation negb]. rewrite filter_app, E5, Hp. reflexivity.
Qed.

Lemma drain_capture_length fd now budget pending :
  (length (fst (fst (drain budget fd now pending))) <= budget)%nat.
Proof.
  destruct (drain_bounds fd now budget pending) as (B1 & B2 & _). lia.
Qed.

Lemma call_queue_effect c s :
  match c with
  | CallIdle => _responses (udp (final (call c s))) = tl (_responses (udp s))
  | CallNotify | CallSend _ _ =>
      exists captured,
        _responses (udp (final (call c s))) = _responses (udp s) ++ captured
        /\ Forall (captured_at (clock (os s))) captured
        /\ (length captured <= 1024)%nat
  | _ => _responses (udp (final (call c s))) = _responses (udp s)
  end.
Proof.
  destruct c as [version | | | | | ip query]; cbn [call];
    rewrite ?(proj1 (forget_out _ _)).
  - destruct (Z.leb_spec 0 (_fd (udp s))) as [Ho | Hc].
    + rewrite open_already by assumption. reflexivity.
    + destruct (fd_supply (os s)) as [| n rest] eqn:E.
      * rewrite open_exhausted by assumption. reflexivity.
      * rewrite (open_fresh version s n rest) by assumption. reflexivity.
  - destruct (Z.ltb_spec (_fd (udp s)) 0) as [Hc | Ho].
    + rewrite close_closed by assumption. reflexivity.
    + rewrite close_open by assumption. reflexivity.
  - destruct (Z.ltb_spec (_fd (udp s)) 0) as [Hc | Ho].
    + rewrite readable_closed by assumption. reflexivity.
    + rewrite readable_open by assumption. reflexivity.
  - destruct (Z.ltb_spec (_fd (udp s)) 0) as [Hc | Ho].
    + rewrite notify_closed by assumption. exists []. cbn.
      rewrite app_nil_r. split; [reflexivity | ]. split; [constructor | lia].
    + destruct (notify_open_summary s Ho) as (_ & N1 & _). cbv zeta in N1.
      eexists. split; [exact N1 | ].
      split; [apply drain_captured | apply drain_capture_length].
  - destruct (_responses (udp s)) as [| r rest] eqn:E.
    + destruct (idle_empty s E) as [-> _]. cbn [final tl].
      destruct (N.eq_dec (_idle (udp s)) nullptr) as [Hn | Hn].
      * rewrite stop_disarmed by assumption. exact E.
      * rewrite stop_armed by assumption. exact E.
    + rewrite (idle_front s r rest E). reflexivity.
  - destruct (Z.leb_spec 0 (_fd (udp s))) as [Ho | Hc].
    + destruct (send_effect ip query s (or_introl Ho)) as (fd & _ & E1 & _).
      eexists. split; [exact E1 | ].
      split; [apply drain_captured | apply drain_capture_length].
    + destruct (fd_supply (os s)) as [| n rest] eqn:E.
      * rewrite send_exhausted by assumption. exists []. cbn.
        rewrite app_nil_r. split; [reflexivity | ]. split; [constructor | lia].
      * assert (H : 0 <= _fd (udp s) \/ fd_supply (os s) <> [])
          by (right; rewrite E; discriminate).
        destruct (send_effect ip query s H) as (fd & _ & E1 & _).
        eexists. split; [exact E1 | ].
        split; [apply drain_captured | apply drain_capture_length].
Qed.

Lemma call_deliveries c s :
  deliveries (events (call c s))
  = match c with
    | CallIdle => front_delivery (_responses (udp s))
    | _ => []
    end.
Proof.
  unfold deliveries.
  destruct c as [version | | | | | ip query]; cbn [call];
    rewrite ?(proj2 (forget_out _ _)).
  - apply open_events_none; intros; reflexivity.
  - destruct (Z.ltb_spec (_fd (udp s)) 0) as [Hc | Ho].
    + rewrite close_closed by assumption. reflexivity.
    + rewrite close_open by assumption. reflexivity.
  - destruct (Z.ltb_spec (_fd (udp s)) 0) as [Hc | Ho].
    + rewrite readable_closed by assumption. reflexivity.
    + rewrite readable_open by assumption. reflexivity.
  - apply notify_events_none; intros; reflexivity.
  - destruct (_responses (udp s)) as [| r rest] eqn:E.
    + destruct (idle_empty s E) as [-> _]. cbn [events front_delivery].
      change (filter is_delivery (EvRead F_responses :: events (stop s)))
        with (deliveries (events (stop s))).
      apply deliveries_stop.
    + rewrite (idle_front s r rest E). cbn [events front_delivery].
      apply deliveries_idle_events.
  - destruct (Z.leb_spec 0 (_fd (udp s))) as [Ho | Hc];
      [ | destruct (fd_supply (os s)) as [| n rest] eqn:E].
    2: { rewrite send_exhausted by assumption. reflexivity. }
    all: match goal with
         | |- filter _ (events (send ?i ?q ?s)) = _ =>
             assert (H : 0 <= _fd (udp s) \/ fd_supply (os s) <> [])
               by (first [left; assumption | right; rewrite E; discriminate]);
             destruct (send_effect i q s H)
               as (fd & _ & _ & _ & before & ret & E3 & _ & E5)
         end;
      rewrite E3, filter_app; cbn [filter is_delivery app];
      rewrite app_nil_r;
      apply (filter_weaker is_delivery not_preparation); [ | exact E5];
      intros x; destruct x; (discriminate || reflexivity).
Qed.

(** ** Properties of the whole class *)

Lemma reachable_opened_example : reachable opened_example.
Proof.
  exists 0, [3%nat], [Calls (CallSend ip4_example query_example)].
  vm_compute. reflexivity.
Qed.

Lemma reachable_busy_example : reachable busy_example.
Proof.
  exists 0, [3%nat],
    [Calls (CallSend ip4_example query_example);
     Arrives (Datagram source_example [x01]);
     Arrives (Datagram source_example [x02; x03]);
     Calls CallNotify].
  vm_compute. reflexivity.
Qed.


(** X1: whatever the owner, the loop and the network do to a freshly
    constructed transport, the registration token is there exactly when the
    descriptor is, a closed descriptor is -1, the loop holds at most one
    read registration and at most one idle watcher of the transport, and a
    queue that is not empty has its watcher armed. *)
Theorem reachable_invariant (s : State) :
  reachable s ->
  Inv s
  /\ (_identifier (udp s) = nullptr <-> _fd (udp s) < 0)
  /\ (_fd (udp s) < 0 -> _fd (udp s) = -1)
  /\ (length (monitors (loop s)) <= 1)%nat
  /\ (length (idlers (loop s)) <= 1)%nat
  /\ (_responses (udp s) <> [] -> armed s = true).
Proof.
  intros (size & fds & xs & ->).
  pose proof (Inv_run xs _ (Inv_initial size fds)) as HI.
  split; [exact HI | ].
  destruct HI as ([(Hf & Hid & Hm) | (Hf & Hid & Hm)] & Hi & Hq);
    rewrite Hm, Hi.
  - split; [split; [lia | auto] | ]. split; [auto | ].
    split; [cbn; lia | ].
    split; [destruct ptr_eqb; cbn; lia | ].
    intros H. unfold armed. apply negb_true_iff, ptr_eqb_null, Hq, H.
  - split; [split; [contradiction | lia] | ]. split; [lia | ].
    split; [cbn; lia | ].
    split; [destruct ptr_eqb; cbn; lia | ].
    intros H. unfold armed. apply negb_true_iff, ptr_eqb_null, Hq, H.
Qed.

Lemma reachable_invariant_witness :
  reachable busy_example /\ (length (idlers (loop busy_example)) <= 1)%nat.
Proof.
  split; [exact reachable_busy_example | ].
  apply (reachable_invariant busy_example reachable_busy_example).
Defined.

(** X2: [open()] returns true exactly when the transport is open
    afterwards, which is when it was open before or the system had a
    descriptor to hand out; it registers with the loop only when it has
    just created the socket. *)
Theorem open_fails_only_on_exhaustion (version : Z) (s : State) :
  let o := open version s in
  let ok := (0 <=? _fd (udp s)) || negb (is_empty (fd_supply (os s))) in
  res o = Val ok
  /\ (0 <=? _fd (udp (final o))) = ok
  /\ length (filter is_registration (events o))
     = (if (_fd (udp s) <? 0) && ok then 1%nat else 0%nat)
  /\ length (filter is_socket_call (events o))
     = (if _fd (udp s) <? 0 then 1%nat else 0%nat).
Proof.
  intros o ok. subst o ok. destruct (Z.leb_spec 0 (_fd (udp s))) as [Ho | Hc].
  - rewrite open_already by assumption. cbn [res final events orb].
    destruct (Z.leb_spec 0 (_fd (udp s))); [ | lia].
    destruct (Z.ltb_spec (_fd (udp s)) 0); [lia | ]. repeat split; reflexivity.
  - destruct (Z.ltb_spec (_fd (udp s)) 0); [ | lia].
    destruct (fd_supply (os s)) as [| n rest] eqn:E.
    + rewrite open_exhausted by assumption. cbn. repeat split; reflexivity.
    + rewrite (open_fresh version s n rest) by assumption.
      cbn [res final events udp _fd orb is_empty negb andb].
      destruct (Z.leb_spec 0 (Z.of_nat n)); [ | lia].
      rewrite !filter_app. unfold buffer_events.
      destruct (0 <? buffersize s); cbn; repeat split; reflexivity.
Qed.

(** X3: once [open()] has returned true, a further [open()], for whatever
    IP version, returns true and does nothing but read [_fd]: no second
    socket, no second registration. *)
Theorem open_is_idempotent (version again : Z) (s : State) :
  res (open version s) = Val true ->
  open again (final (open version s))
  = mk_Out (Val true) (final (open version s)) [EvRead F_fd].
Proof.
  intros H. apply open_already.
  destruct (Z.leb_spec 0 (_fd (udp s))) as [Ho | Hc].
  - rewrite open_already by assumption. exact Ho.
  - destruct (fd_supply (os s)) as [| n rest] eqn:E.
    + rewrite open_exhausted in H by assumption. discriminate H.
    + rewrite (open_fresh version s n rest) by assumption. cbn. lia.
Qed.

Lemma open_is_idempotent_witness :
  res (open 4 (initial 0 [3%nat])) = Val true
  /\ events (open 6 (final (open 4 (initial 0 [3%nat])))) = [EvRead F_fd].
Proof.
  split; [vm_compute; reflexivity | ].
  rewrite (open_is_idempotent 4 6 (initial 0 [3%nat])); [reflexivity | ].
  vm_compute. reflexivity.
Defined.

(** X4: [open()] on a closed transport for which the system has a
    descriptor creates one socket, of family [AF_INET6] for version 6 and
    [AF_INET] for every other version; it sets the send and the receive
    buffer to the configured size exactly when that size is positive, and
    then registers the descriptor for reading once, keeping the token; queue
    and watcher are not touched. *)
Theorem open_creates_and_registers (version : Z) (s : State) (n : nat) (rest : list nat) :
  _fd (udp s) < 0 ->
  fd_supply (os s) = n :: rest ->
  let o := open version s in
  filter is_socket_call (events o)
  = [EvSocket (if version =? 6 then AF_INET6 else AF_INET)
              (Z.lor SOCK_DGRAM SOCK_CLOEXEC) 0 (Z.of_nat n)]
  /\ filter is_setsockopt (events o)
     = (if 0 <? buffersize s then
          [EvSetsockopt (Z.of_nat n) SOL_SOCKET SO_SNDBUF (buffersize s) 0;
           EvSetsockopt (Z.of_nat n) SOL_SOCKET SO_RCVBUF (buffersize s) 0]
        else [])
  /\ filter is_registration (events o)
     = [EvLoopAdd (Z.of_nat n) 1 (_identifier (udp (final o)))]
  /\ _identifier (udp (final o)) <> nullptr
  /\ _fd (udp (final o)) = Z.of_nat n
  /\ lookup_socket (Z.of_nat n) (sockets (os (final o)))
     = Some (if version =? 6 then AF_INET6 else AF_INET)
  /\ _responses (udp (final o)) = _responses (udp s)
  /\ _idle (udp (final o)) = _idle (udp s)
  /\ idlers (loop (final o)) = idlers (loop s).
Proof.
  intros Hc E o. subst o. rewrite (open_fresh version s n rest) by assumption.
  cbn [final events udp os loop _fd _identifier _idle _responses sockets idlers].
  rewrite !filter_app. unfold buffer_events, family_of_version, lookup_socket.
  cbn [find fst snd]. rewrite Z.eqb_refl.
  destruct (0 <? buffersize s); cbn; repeat split; try reflexivity; discriminate.
Qed.

Lemma open_creates_and_registers_witness :
  _fd (udp (initial 4096 [5%nat])) < 0
  /\ fd_supply (os (initial 4096 [5%nat])) = [5%nat]
  /\ filter is_socket_call (events (open 0 (initial 4096 [5%nat])))
     = [EvSocket AF_INET (Z.lor SOCK_DGRAM SOCK_CLOEXEC) 0 5].
Proof.
  split; [vm_compute; reflexivity | ]. split; [reflexivity | ].
  apply (open_creates_and_registers 0 (initial 4096 [5%nat]) 5 []).
  - vm_compute. reflexivity.
  - reflexivity.
Defined.

(** X5: the destructor leaves nothing behind: the descriptor is closed and
    unregistered when it was open, the watcher is cancelled when it was
    armed, each once, and afterwards the loop holds no registration of the
    transport; what was still queued is not handed to the handler. *)
Theorem destructor_releases_everything (s : State) :
  Inv s ->
  let o := destruct_Udp s in
  res o = Val tt
  /\ _fd (udp (final o)) = -1
  /\ _identifier (udp (final o)) = nullptr
  /\ _idle (udp (final o)) = nullptr
  /\ monitors (loop (final o)) = []
  /\ idlers (loop (final o)) = []
  /\ deliveries (events o) = []
  /\ filter is_unregistration (events o)
     = (if 0 <=? _fd (udp s) then [EvLoopRemove (_identifier (udp s)) (_fd (udp s))] else [])
  /\ filter is_close (events o)
     = (if 0 <=? _fd (udp s) then [EvClose (_fd (udp s))] else [])
  /\ filter is_cancel (events o)
     = (if armed s then [EvLoopCancel (_idle (udp s))] else []).
Proof.
  intros HI o. subst o. unfold destruct_Udp.
  pose proof (Inv_idlers s HI) as Hi.
  destruct HI as ([(Hf & Hid & Hm) | (Hf & Hid & Hm)] & _ & _).
  - erewrite bind_val by (apply close_closed; lia). cbn [res final events app].
    destruct (Z.leb_spec 0 (_fd (udp s))); [lia | ].
    unfold armed in *. destruct (N.eq_dec (_idle (udp s)) nullptr) as [Hn | Hn].
    + rewrite stop_disarmed by assumption. rewrite Hn in *. cbn in *.
      repeat split; assumption.
    + rewrite stop_armed by assumption.
      apply ptr_eqb_null in Hn. rewrite Hn in *. cbn in *. rewrite Hi. cbn.
      rewrite ptr_eqb_refl. repeat split; assumption.
  - erewrite bind_val by (apply close_open; lia).
    destruct (Z.leb_spec 0 (_fd (udp s))); [ | lia].
    unfold armed in *. destruct (N.eq_dec (_idle (udp s)) nullptr) as [Hn | Hn].
    + rewrite stop_disarmed by (cbn; assumption). rewrite Hn in *. cbn in *.
      rewrite Hm, Hi. cbn. rewrite ptr_eqb_refl, Z.eqb_refl. cbn.
      repeat split; reflexivity.
    + rewrite stop_armed by (cbn; assumption).
      apply ptr_eqb_null in Hn. rewrite Hn in *. cbn in *. rewrite Hm, Hi. cbn.
      rewrite !ptr_eqb_refl, Z.eqb_refl. cbn. repeat split; reflexivity.
Qed.

Lemma destructor_releases_everything_witness :
  Inv busy_example
  /\ monitors (loop (final (destruct_Udp busy_example))) = []
  /\ idlers (loop (final (destruct_Udp busy_example))) = [].
Proof.
  assert (H : Inv busy_example) by (apply Inv_reachable, reachable_busy_example).
  split; [exact H | ].
  split; apply (destructor_releases_everything busy_example H).
Defined.

(** X6: a [send()] that has a socket (the transport is open, or the system
    has a descriptor for it) ends with its one [sendto]: on the transport's
    descriptor, with the size of the query, [MSG_NOSIGNAL], and a
    destination of the family of the target's IP version that carries port
    53 in network order, flow label and scope zero and the bytes of the
    target. It returns true exactly when that [sendto] returned a
    non-negative count; before it, the handler is not called. *)
Theorem send_transmits_once (ip : Ip) (query : Query) (s : State) :
  0 <= _fd (udp s) \/ fd_supply (os s) <> [] ->
  let o := send ip query s in
  (exists before ret,
     events o = before ++ [EvSendto (_fd (udp (final o))) (Query_size query)
                             MSG_NOSIGNAL (destination ip) ret]
     /\ res o = Val (0 <=? ret)
     /\ filter is_sendto before = []
     /\ deliveries before = [])
  /\ sa_family (destination ip) = family_of_version (Ip_version ip)
  /\ sa_port (destination ip) = htons 53
  /\ sa_flowinfo (destination ip) = 0
  /\ sa_scope_id (destination ip) = 0
  /\ sa_addr (destination ip)
     = firstn (if Ip_version ip =? 6 then sizeof_in6_addr else sizeof_in_addr) (Ip_bytes ip).
Proof.
  intros H o. subst o. split.
  - destruct (send_effect ip query s H) as (fd & E0 & _ & _ & before & ret & E3 & E4 & E5).
    exists before, ret. rewrite E0.
    split; [exact E3 | ]. split; [exact E4 | ].
    split; apply (filter_weaker _ not_preparation); try exact E5;
      intros x; destruct x; (discriminate || reflexivity).
  - destruct ip; cbn; repeat split; reflexivity.
Qed.

Lemma send_transmits_once_witness :
  (0 <= _fd (udp (initial 0 [3%nat])) \/ fd_supply (os (initial 0 [3%nat])) <> [])
  /\ sa_port (destination ip6_example) = htons 53.
Proof.
  assert (H : 0 <= _fd (udp (initial 0 [3%nat])) \/ fd_supply (os (initial 0 [3%nat])) <> [])
    by (right; discriminate).
  split; [exact H | ].
  apply (send_transmits_once ip6_example query_example (initial 0 [3%nat]) H).
Defined.

(** X7: the handler is called by the idle dispatch and by no other method:
    [open()], [close()], [readable()], [notify()] and [send()] never call
    it, the pre-send drain of [send()] included; an invocation of the idle
    dispatch calls it at most once, for the item in front of the queue. *)
Theorem handler_called_only_by_idle (c : Call) (s : State) :
  deliveries (events (call c s))
  = match c with
    | CallIdle => front_delivery (_responses (udp s))
    | _ => []
    end
  /\ (length (deliveries (events (call c s))) <= 1)%nat.
Proof.
  rewrite call_deliveries. split; [reflexivity | ].
  destruct c; cbn [length]; try lia.
  unfold front_delivery, delivery_of.
  destruct (_responses (udp s)) as [| r rest]; [cbn; lia | ].
  destruct (Response_ip r); cbn; lia.
Qed.

(** X8: the queue changes only at its ends: the idle dispatch takes the
    front item away and nothing else; [notify()] and [send()] append at the
    back, at most 1024 responses per call, each stamped with the time of the
    call and carrying between 1 and 65536 bytes; [open()], [close()] and
    [readable()] leave the queue alone. No method reorders or drops what is
    queued behind the front. *)
Theorem queue_changes_only_at_its_ends (c : Call) (s : State) :
  match c with
  | CallIdle => _responses (udp (final (call c s))) = tl (_responses (udp s))
  | CallNotify | CallSend _ _ =>
      exists captured,
        _responses (udp (final (call c s))) = _responses (udp s) ++ captured
        /\ Forall (captured_at (clock (os s))) captured
        /\ (length captured <= 1024)%nat
  | _ => _responses (udp (final (call c s))) = _responses (udp s)
  end.
Proof.
  exact (call_queue_effect c s).
Qed.

Lemma well_sized_step x s :
  Forall well_sized (_responses (udp s)) ->
  Forall well_sized (_responses (udp (step x s))).
Proof.
  intros H. destruct x as [c | a | now | fd]; cbn [step].
  - pose proof (call_queue_effect c s) as Q.
    destruct c; try (rewrite Q; exact H).
    + destruct Q as (captured & -> & Hc & _). apply Forall_app. split; [exact H | ].
      eapply Forall_impl; [ | exact Hc]. intros r [_ Hr]. exact Hr.
    + rewrite Q. destruct (_responses (udp s)); [constructor | ].
      inversion H. assumption.
    + destruct Q as (captured & -> & Hc & _). apply Forall_app. split; [exact H | ].
      eapply Forall_impl; [ | exact Hc]. intros r [_ Hr]. exact Hr.
  - destruct (lookup_socket (_fd (udp s)) (sockets (os s))); exact H.
  - exact H.
  - exact H.
Qed.

Lemma well_sized_run xs :
  forall s, Forall well_sized (_responses (udp s)) ->
            Forall well_sized (_responses (udp (run xs s))).
Proof.
  unfold run. induction xs as [| x xs IH]; intros s H; cbn [fold_left].
  - exact H.
  - apply IH, well_sized_step, H.
Qed.

(** X9: in every state a transport can reach, each queued response carries
    between 1 and 65536 bytes, and so whatever call is made next, a handler
    call in it passes a size that is the length of the data passed and lies
    between 1 and 65536: the handler never sees an empty payload. *)
Theorem handler_gets_a_sized_payload (s : State) :
  reachable s ->
  Forall well_sized (_responses (udp s))
  /\ forall c ip data size,
       In (EvOnReceived ip data size) (events (call c s)) ->
       size = Z.of_nat (length data) /\ 1 <= size <= BUFFER_SIZE.
Proof.
  intros (n & fds & xs & ->).
  assert (H : Forall well_sized (_responses (udp (run xs (initial n fds)))))
    by (apply well_sized_run; constructor).
  split; [exact H | ].
  intros c ip data size Hin.
  assert (Hd : In (EvOnReceived ip data size)
                  (deliveries (events (call c (run xs (initial n fds))))))
    by (apply filter_In; split; [exact Hin | reflexivity]).
  rewrite call_deliveries in Hd.
  destruct c; try contradiction.
  unfold front_delivery, delivery_of in Hd.
  destruct (_responses (udp (run xs (initial n fds)))) as [| r rest]; [contradiction | ].
  inversion H as [| r' rest' Hr Hrest]. subst.
  destruct (Response_ip r); [ | contradiction].
  destruct Hd as [Hd | []]. injection Hd as <- <- <-.
  split; [reflexivity | exact Hr].
Qed.

Lemma handler_gets_a_sized_payload_witness :
  reachable busy_example /\ Forall well_sized (_responses (udp busy_example)).
Proof.
  split; [exact reachable_busy_example | ].
  apply (handler_gets_a_sized_payload busy_example reachable_busy_example).
Defined.

(** X10: the drain ends at the first receive that yields nothing: when what
    is first in the kernel's queue is an error or a datagram without
    payload, [notify()] calls [recvfrom] once, queues nothing, and leaves
    what was pending behind it for a later call; that first entry is gone
    (a datagram without payload is never delivered), and the watcher is
    armed all the same. *)
Theorem notify_ends_at_an_empty_receive (s : State) (a : Arrival) (rest : list Arrival) :
  0 <= _fd (udp s) ->
  inbound (os s) = a :: rest ->
  nonempty_datagram a = false ->
  let o := notify s in
  _responses (udp (final o)) = _responses (udp s)
  /\ inbound (os (final o)) = rest
  /\ count_recvfrom (events o) = 1%nat
  /\ armed (final o) = true.
Proof.
  intros H E Ha o. subst o.
  destruct (notify_open_summary s H) as (_ & N1 & N2 & N3 & _). cbv zeta in *.
  destruct (notify_arms s H) as (A & _).
  rewrite E in *.
  destruct (drain_stops (_fd (udp s)) (clock (os s)) 1023 a rest Ha) as [D1 D2].
  rewrite N1, N2, N3, D1, D2. cbn [fst snd]. rewrite app_nil_r.
  repeat split; try reflexivity. exact A.
Qed.

Lemma notify_ends_at_an_empty_receive_witness :
  0 <= _fd (udp hollow_example)
  /\ inbound (os (final (notify hollow_example))) = [Datagram source_example [x01]].
Proof.
  split; [vm_compute; discriminate | ].
  apply (notify_ends_at_an_empty_receive hollow_example
           (Datagram source_example []) [Datagram source_example [x01]]).
  - vm_compute. discriminate.
  - vm_compute. reflexivity.
  - reflexivity.
Defined.

(** X11: when at most 1024 datagrams are pending, all of them with a
    payload, one [notify()] takes them all: the kernel's queue is empty
    afterwards and the responses are at the back of the queue in their
    order of arrival, each with the first 65536 bytes of its payload and the
    time of the call. *)
Theorem notify_captures_all_pending (s : State) :
  0 <= _fd (udp s) ->
  (length (inbound (os s)) <= 1024)%nat ->
  forallb nonempty_datagram (inbound (os s)) = true ->
  let o := notify s in
  _responses (udp (final o))
  = _responses (udp s) ++ flat_map (response_of_arrival (clock (os s))) (inbound (os s))
  /\ inbound (os (final o)) = []
  /\ length (_responses (udp (final o)))
     = (length (_responses (udp s)) + length (inbound (os s)))%nat.
Proof.
  intros H Hl Hn o. subst o.
  destruct (notify_open_summary s H) as (_ & N1 & N2 & _). cbv zeta in *.
  rewrite N1, N2.
  rewrite (drain_all (_fd (udp s)) (clock (os s)) 1024 (inbound (os s)) Hl Hn).
  cbn [fst snd]. split; [reflexivity | ]. split; [reflexivity | ].
  rewrite length_app, flat_map_responses_length by assumption. reflexivity.
Qed.

Lemma notify_captures_all_pending_witness :
  0 <= _fd (udp pending_example)
  /\ inbound (os (final (notify pending_example))) = [].
Proof.
  split; [vm_compute; discriminate | ].
  apply (notify_captures_all_pending pending_example).
  - vm_compute. discriminate.
  - vm_compute. lia.
  - vm_compute. reflexivity.
Defined.

(** X12: [send()] on an open transport empties the socket before it
    transmits: with at most 1024 datagrams pending, all with a payload, all
    of them are in the queue when [send()] returns, in their order of
    arrival, none is left in the kernel, and every [recvfrom] of the call
    comes before its [sendto]. *)
Theorem send_drains_before_it_transmits (ip : Ip) (query : Query) (s : State) :
  0 <= _fd (udp s) ->
  (length (inbound (os s)) <= 1024)%nat ->
  forallb nonempty_datagram (inbound (os s)) = true ->
  let o := send ip query s in
  _responses (udp (final o))
  = _responses (udp s) ++ flat_map (response_of_arrival (clock (os s))) (inbound (os s))
  /\ inbound (os (final o)) = []
  /\ exists before ret,
       events o = before ++ [EvSendto (_fd (udp s)) (Query_size query)
                               MSG_NOSIGNAL (destination ip) ret]
       /\ count_recvfrom before = count_recvfrom (events o).
Proof.
  intros H Hl Hn o. subst o.
  destruct (send_effect ip query s (or_introl H))
    as (fd & E0 & E1 & E2 & before & ret & E3 & _).
  assert (Hfd : fd = _fd (udp s)).
  { rewrite <- E0. rewrite send_open by assumption. cbv zeta. cbn [final].
    apply send_sockaddr_frame. assumption. }
  clear E0. subst fd.
  rewrite E1, E2.
  rewrite (drain_all (_fd (udp s)) (clock (os s)) 1024 (inbound (os s)) Hl Hn).
  cbn [fst snd]. split; [reflexivity | ]. split; [reflexivity | ].
  exists before, ret. split; [exact E3 | ].
  rewrite E3, count_recvfrom_app. cbn. lia.
Qed.

Lemma send_drains_before_it_transmits_witness :
  0 <= _fd (udp pending_example)
  /\ inbound (os (final (send ip4_example query_example pending_example))) = [].
Proof.
  split; [vm_compute; discriminate | ].
  apply (send_drains_before_it_transmits ip4_example query_example pending_example).
  - vm_compute. discriminate.
  - vm_compute. lia.
  - vm_compute. reflexivity.
Defined.

(** X13: from the socket to the handler: when at most 1024 datagrams with a
    payload are pending on an open transport whose queue is empty, one
    [notify()] followed by as many invocations of the idle dispatch as there
    were datagrams hands them to the handler in their order of arrival, one
    per invocation (none for a datagram whose source address cannot be
    reconstructed), and leaves the queue empty with the watcher still armed
    for the invocation that will cancel it. *)
Theorem pending_datagrams_reach_the_handler (s : State) :
  0 <= _fd (udp s) ->
  _responses (udp s) = [] ->
  (length (inbound (os s)) <= 1024)%nat ->
  forallb nonempty_datagram (inbound (os s)) = true ->
  let s' := final (notify s) in
  let n := length (inbound (os s)) in
  map deliveries (snd (idle_times n s'))
  = map delivery_of (flat_map (response_of_arrival (clock (os s))) (inbound (os s)))
  /\ _responses (udp (fst (idle_times n s'))) = []
  /\ armed (fst (idle_times n s')) = true.
Proof.
  intros H Hq Hl Hn s' n. subst s' n.
  destruct (notify_open_summary s H) as (_ & N1 & _). cbv zeta in N1.
  rewrite (drain_all (_fd (udp s)) (clock (os s)) 1024 (inbound (os s)) Hl Hn) in N1.
  cbn [fst] in N1. rewrite Hq in N1. cbn [app] in N1.
  destruct (notify_arms s H) as (A & _).
  pose proof (flat_map_responses_length (clock (os s)) (inbound (os s)) Hn) as L.
  generalize dependent (final (notify s)). intros s' N1 A.
  split.
  - rewrite idle_times_deliveries, N1, <- L, firstn_all, Nat.sub_diag.
    cbn [repeat]. apply app_nil_r.
  - destruct (idle_times_queue (length (inbound (os s))) s') as [Q _];
      [rewrite N1, L; lia | ].
    rewrite Q, N1, <- L, skipn_all. split; [reflexivity | exact A].
Qed.

Lemma pending_datagrams_reach_the_handler_witness :
  0 <= _fd (udp pending_example)
  /\ map deliveries (snd (idle_times 2 (final (notify pending_example))))
     = [[EvOnReceived ip4_example [x01] 1]; [EvOnReceived ip4_example [x02; x03] 2]].
Proof.
  split; [vm_compute; discriminate | ].
  apply (pending_datagrams_reach_the_handler pending_example).
  - vm_compute. discriminate.
  - vm_compute. reflexivity.
  - vm_compute. lia.
  - vm_compute. reflexivity.
Defined.



(** ** Order of delivery over whole runs *)

Lemma subseq_refl {A} (l : list A) : subseq l l.
Proof. induction l; constructor; assumption. Qed.

Lemma subseq_nil_l {A} (l : list A) : subseq [] l.
Proof. induction l; constructor; assumption. Qed.

Lemma subseq_trans {A} (l2 l3 : list A) :
  subseq l2 l3 -> forall l1, subseq l1 l2 -> subseq l1 l3.
Proof.
  induction 1 as [| x l2 l3 H IH | x l2 l3 H IH]; intros l1 H1.
  - exact H1.
  - apply subseq_skip, IH, H1.
  - inversion H1 as [| y k1 k2 Hk | y k1 k2 Hk]; subst.
    + apply subseq_skip, IH, Hk.
    + apply subseq_take, IH, Hk.
Qed.

Lemma subseq_app {A} (a b c d : list A) :
  subseq a b -> subseq c d -> subseq (a ++ c) (b ++ d).
Proof.
  induction 1 as [| x a b H IH | x a b H IH]; intros Hc; cbn [app].
  - exact Hc.
  - apply subseq_skip, IH, Hc.
  - apply subseq_take, IH, Hc.
Qed.

Lemma subseq_app_r {A} (a b : list A) : subseq a (a ++ b).
Proof.
  rewrite <- (app_nil_r a) at 1. apply subseq_app; [apply subseq_refl | apply subseq_nil_l].
Qed.

Lemma subseq_app_l {A} (a b : list A) : subseq b (a ++ b).
Proof.
  change b with ([] ++ b) at 1. apply subseq_app; [apply subseq_nil_l | apply subseq_refl].
Qed.

Lemma delivery_of_time now from buffer bytes :
  delivery_of (Response_new now from buffer bytes)
  = delivery_of (Response_new 0 from buffer bytes).
Proof. reflexivity. Qed.

(** What a drain queues and what it leaves is, in this order, what was
    pending with some of it left out. *)
Lemma drain_flow fd now :
  forall budget pending,
    subseq (flat_map delivery_of (fst (fst (drain budget fd now pending)))
            ++ flat_map arrival_events (snd (fst (drain budget fd now pending))))
           (flat_map arrival_events pending).
Proof.
  induction budget as [| budget IH]; intros pending; cbn [drain].
  - cbn. apply subseq_refl.
  - destruct pending as [| [from payload | ] rest].
    + cbn. constructor.
    + destruct (Z.of_nat (length (firstn (Z.to_nat BUFFER_SIZE) payload)) <=? 0).
      * cbn [fst snd flat_map app]. apply subseq_app_l.
      * cbn [fst snd flat_map]. unfold arrival_events at 2.
        cbn [response_of_arrival flat_map]. rewrite app_nil_r, <- app_assoc.
        rewrite delivery_of_time.
        apply subseq_app; [apply subseq_refl | apply IH].
    + cbn [fst snd flat_map app]. apply subseq_refl.
Qed.

Lemma call_inbound c s :
  match c with
  | CallOpen _ | CallReadable | CallIdle => inbound (os (final (call c s))) = inbound (os s)
  | CallClose =>
      inbound (os (final (call c s))) = (if _fd (udp s) <? 0 then inbound (os s) else [])
  | _ => True
  end.
Proof.
  destruct c as [version | | | | | ip query]; cbn [call];
    rewrite ?(proj1 (forget_out _ _)); try exact I.
  - destruct (Z.leb_spec 0 (_fd (udp s))) as [Ho | Hc].
    + rewrite open_already by assumption. reflexivity.
    + destruct (fd_supply (os s)) as [| n rest] eqn:E.
      * rewrite open_exhausted by assumption. reflexivity.
      * rewrite (open_fresh version s n rest) by assumption. reflexivity.
  - destruct (Z.ltb_spec (_fd (udp s)) 0) as [Hc | Ho].
    + rewrite close_closed by assumption. reflexivity.
    + rewrite close_open by assumption. reflexivity.
  - destruct (Z.ltb_spec (_fd (udp s)) 0) as [Hc | Ho].
    + rewrite readable_closed by assumption. reflexivity.
    + rewrite readable_open by assumption. reflexivity.
  - destruct (_responses (udp s)) as [| r rest] eqn:E.
    + destruct (idle_empty s E) as [-> _]. cbn [final].
      destruct (N.eq_dec (_idle (udp s)) nullptr) as [Hn | Hn].
      * rewrite stop_disarmed by assumption. reflexivity.
      * rewrite stop_armed by assumption. reflexivity.
    + rewrite (idle_front s r rest E). reflexivity.
Qed.

Lemma drained_flow fd now q q' pending pending' :
  q' = q ++ fst (fst (drain 1024 fd now pending)) ->
  pending' = snd (fst (drain 1024 fd now pending)) ->
  subseq (flat_map delivery_of q' ++ flat_map arrival_events pending')
         (flat_map delivery_of q ++ flat_map arrival_events pending).
Proof.
  intros -> ->. rewrite flat_map_app, <- app_assoc.
  apply subseq_app; [apply subseq_refl | apply drain_flow].
Qed.

(** A call moves items from the kernel to the queue and from the queue to
    the handler, in order, and may leave some out. *)
Lemma call_flow c s :
  subseq (deliveries (events (call c s))
          ++ flat_map delivery_of (_responses (udp (final (call c s))))
          ++ flat_map arrival_events (inbound (os (final (call c s)))))
         (flat_map delivery_of (_responses (udp s))
          ++ flat_map arrival_events (inbound (os s))).
Proof.
  rewrite call_deliveries.
  pose proof (call_queue_effect c s) as Q.
  pose proof (call_inbound c s) as P.
  destruct c as [version | | | | | ip query].
  - rewrite Q, P. apply subseq_refl.
  - rewrite Q, P. cbn [app].
    destruct (_fd (udp s) <? 0); [apply subseq_refl | ].
    cbn [flat_map]. rewrite app_nil_r. apply subseq_app_r.
  - rewrite Q, P. apply subseq_refl.
  - clear Q P. cbn [call app].
    destruct (Z.ltb_spec (_fd (udp s)) 0) as [Hc | Ho].
    + rewrite notify_closed by assumption. apply subseq_refl.
    + destruct (notify_open_summary s Ho) as (_ & N1 & N2 & _). cbv zeta in *.
      eapply drained_flow; eassumption.
  - rewrite Q, P. cbn [app]. unfold front_delivery.
    destruct (_responses (udp s)) as [| r rest]; cbn [tl flat_map app].
    + apply subseq_refl.
    + rewrite <- app_assoc. apply subseq_refl.
  - clear Q P. cbn [call app]. rewrite (proj1 (forget_out _ _)).
    destruct (Z.leb_spec 0 (_fd (udp s))) as [Ho | Hc];
      [ | destruct (fd_supply (os s)) as [| n rest] eqn:E].
    2: { rewrite send_exhausted by assumption. apply subseq_refl. }
    all: match goal with
         | |- context [send ?i ?q ?s] =>
             assert (H : 0 <= _fd (udp s) \/ fd_supply (os s) <> [])
               by (first [left; assumption | right; rewrite E; discriminate]);
             destruct (send_effect i q s H) as (fd & _ & E1 & E2 & _)
         end;
      eapply drained_flow; eassumption.
Qed.

Lemma step_flow x s :
  subseq (deliveries (step_events x s)
          ++ flat_map delivery_of (_responses (udp (step x s)))
          ++ flat_map arrival_events (inbound (os (step x s))))
         ((flat_map delivery_of (_responses (udp s))
           ++ flat_map arrival_events (inbound (os s)))
          ++ flat_map arrival_events (arrivals_of [x])).
Proof.
  destruct x as [c | a | now | fd]; cbn [step step_events arrivals_of flat_map app deliveries
                                         filter].
  - rewrite app_nil_r. apply call_flow.
  - rewrite app_nil_r.
    destruct (lookup_socket (_fd (udp s)) (sockets (os s))).
    + cbn [udp os inbound with_os]. rewrite flat_map_app. cbn [flat_map].
      rewrite app_nil_r, app_assoc. apply subseq_refl.
    + apply subseq_app_r.
  - rewrite app_nil_r. apply subseq_refl.
  - rewrite app_nil_r. apply subseq_refl.
Qed.

Lemma arrivals_of_cons x xs : arrivals_of (x :: xs) = arrivals_of [x] ++ arrivals_of xs.
Proof.
  unfold arrivals_of. cbn [flat_map]. rewrite app_nil_r. reflexivity.
Qed.

Lemma run_flow :
  forall xs s delivered arrived,
    subseq (delivered
            ++ flat_map delivery_of (_responses (udp s))
            ++ flat_map arrival_events (inbound (os s)))
           arrived ->
    subseq ((delivered ++ deliveries (trace xs s))
            ++ flat_map delivery_of (_responses (udp (run xs s)))
            ++ flat_map arrival_events (inbound (os (run xs s))))
           (arrived ++ flat_map arrival_events (arrivals_of xs)).
Proof.
  induction xs as [| x xs IH]; intros s delivered arrived H.
  - cbn. rewrite !app_nil_r. exact H.
  - change (run (x :: xs) s) with (run xs (step x s)).
    cbn [trace]. unfold deliveries at 1. rewrite filter_app.
    fold (deliveries (step_events x s)). fold (deliveries (trace xs (step x s))).
    rewrite arrivals_of_cons, flat_map_app.
    rewrite (app_assoc delivered), (app_assoc arrived).
    apply IH.
    apply (subseq_trans
             (delivered
              ++ ((flat_map delivery_of (_responses (udp s))
                   ++ flat_map arrival_events (inbound (os s)))
                  ++ flat_map arrival_events (arrivals_of [x])))).
    + rewrite app_assoc. apply subseq_app; [exact H | apply subseq_refl].
    + rewrite <- app_assoc. apply subseq_app; [apply subseq_refl | apply step_flow].
Qed.

(** X15: over every run of a transport, whatever the order of its calls
    and of the arrivals in between, the handler calls are, in this order,
    arrivals of the run with some left out: the handler gets the datagrams
    in their order of arrival, each at most once, with the source and the
    payload (up to 65536 bytes) the datagram came with, and nothing it gets
    was not received. *)
Theorem deliveries_follow_the_arrivals (size : Z) (fds : list nat) (xs : list Step) :
  subseq (deliveries (trace xs (initial size fds)))
         (flat_map arrival_events (arrivals_of xs)).
Proof.
  pose proof (run_flow xs (initial size fds) [] []) as H.
  cbn [app] in H.
  eapply subseq_trans; [apply H; constructor | ].
  apply subseq_app_r.
Qed.

(** In the example run the handler gets the first and the third datagram,
    in that order; the second, from the stray source, is left out. *)
Example dispatch_run_deliveries :
  deliveries (trace dispatch_run (initial 0 [3%nat]))
  = [EvOnReceived ip4_example [x01] 1; EvOnReceived ip4_example [x03] 1]
  /\ flat_map arrival_events (arrivals_of dispatch_run)
     = [EvOnReceived ip4_example [x01] 1; EvOnReceived ip4_example [x03] 1].
Proof. vm_compute. split; reflexivity. Qed.

(** ** The dispatch of what a drain has captured *)

Lemma drain_reconstructs fd now :
  forall budget pending,
    forallb supported_source pending = true ->
    forallb reconstructs (fst (fst (drain budget fd now pending))) = true.
Proof.
  induction budget as [| budget IH]; intros pending H; cbn [drain]; [reflexivity | ].
  destruct pending as [| a rest]; [reflexivity | ].
  cbn [forallb] in H. apply andb_prop in H. destruct H as [Ha H].
  destruct a as [from payload | ]; [ | reflexivity].
  destruct (Z.of_nat (length (firstn (Z.to_nat BUFFER_SIZE) payload)) <=? 0); [reflexivity | ].
  cbn [fst snd forallb]. rewrite (IH rest H), andb_true_r.
  unfold reconstructs, Response_ip, Ip_of_sockaddr, Response_new. cbn [response_from].
  cbn [supported_source] in Ha.
  destruct (sa_family from =? AF_INET); [reflexivity | ].
  destruct (sa_family from =? AF_INET6); [reflexivity | discriminate Ha].
Qed.

Lemma reconstructs_delivery r :
  reconstructs r = true ->
  exists ip,
    Response_ip r = inl ip
    /\ delivery_of r = [EvOnReceived ip (response_data r) (Response_size r)].
Proof.
  unfold reconstructs, delivery_of. destruct (Response_ip r) as [ip | e]; [ | discriminate].
  intros _. exists ip. split; reflexivity.
Qed.

(** C1: on an open transport whose pending datagrams have the sources the
    kernel stores for its socket (and whose queue, if it is not empty, holds
    responses of such sources), a drain appends what it captures to the
    queue, and the invocations of [Udp::idle] that follow (with no other
    call on the transport in between) hand the N queued datagrams to the
    handler one per invocation, in their order of arrival, across exactly N
    invocations, each invocation calling the handler exactly once; the
    watcher is armed all the while; invocation N+1 finds the queue empty,
    calls no handler, cancels the watcher in the loop and forgets it. *)
Theorem drained_datagrams_are_delivered (s : State) :
  Inv s ->
  0 <= _fd (udp s) ->
  forallb reconstructs (_responses (udp s)) = true ->
  forallb supported_source (inbound (os s)) = true ->
  let s' := final (notify s) in
  let q := _responses (udp s') in
  let n := length q in
  (exists captured,
     q = _responses (udp s) ++ captured /\ (length captured <= 1024)%nat)
  /\ snd (idle_times n s') = map idle_events q
  /\ map deliveries (snd (idle_times n s')) = map delivery_of q
  /\ Forall (fun r => exists ip,
                Response_ip r = inl ip
                /\ delivery_of r = [EvOnReceived ip (response_data r) (Response_size r)]) q
  /\ one_delivery_per_invocation s'
  /\ length (snd (idle_times n s')) = n
  /\ fst (idle_times n s') = set_responses [] s'
  /\ armed (fst (idle_times n s')) = true
  /\ (let o := idle (fst (idle_times n s')) in
      res o = Val tt
      /\ _responses (udp (final o)) = []
      /\ deliveries (events o) = []
      /\ filter is_cancel (events o) = [EvLoopCancel (_idle (udp s'))]
      /\ _idle (udp (final o)) = nullptr
      /\ idlers (loop (final o)) = []).
Proof.
  intros HI Ho Hq Hs s' q n. subst n q s'.
  destruct (notify_open_summary s Ho) as (_ & N1 & _). cbv zeta in N1.
  assert (Hall : forallb reconstructs (_responses (udp (final (notify s)))) = true).
  { rewrite N1, forallb_app, Hq. apply drain_reconstructs, Hs. }
  assert (Hcap : exists captured,
             _responses (udp (final (notify s))) = _responses (udp s) ++ captured
             /\ (length captured <= 1024)%nat).
  { eexists. split; [exact N1 | ].
    destruct (drain_bounds (_fd (udp s)) (clock (os s)) 1024 (inbound (os s)))
      as (B1 & B2 & _). lia. }
  destruct (notify_arms s Ho) as (A & _).
  pose proof (Inv_idlers _ (Inv_notify s HI)) as Hi. rewrite A in Hi.
  clear N1. generalize dependent (final (notify s)). intros s' Hall Hcap A Hi.
  destruct (idle_times_queue (length (_responses (udp s'))) s' (le_n _)) as [Q1 Q2].
  rewrite skipn_all in Q1. rewrite firstn_all in Q2.
  assert (Hd : Forall (fun r => exists ip,
                         Response_ip r = inl ip
                         /\ delivery_of r
                            = [EvOnReceived ip (response_data r) (Response_size r)])
                      (_responses (udp s'))).
  { apply Forall_forall. intros r Hr. apply reconstructs_delivery.
    apply (proj1 (forallb_forall _ _) Hall r Hr). }
  split; [exact Hcap | ]. split; [exact Q2 | ].
  split.
  { rewrite Q2, map_map. apply map_ext. intros r. apply deliveries_idle_events. }
  split; [exact Hd | ].
  split.
  { unfold one_delivery_per_invocation. rewrite Q2. apply Forall_map.
    eapply Forall_impl; [ | exact Hd].
    intros r (ip & _ & E). rewrite deliveries_idle_events, E. reflexivity. }
  split; [rewrite Q2; apply length_map | ].
  split; [exact Q1 | ].
  rewrite Q1.
  assert (A' : armed (set_responses [] s') = true) by exact A.
  split; [exact A' | ].
  destruct (idle_on_empty (set_responses [] s') eq_refl) as (R1 & R2 & R3 & R4 & R5 & R6).
  rewrite A' in R5, R6.
  split; [exact R1 | ]. split; [exact R2 | ]. split; [exact R4 | ].
  split; [exact R5 | ]. split; [exact R3 | ].
  rewrite R6. cbn [Loop_cancel idlers set_responses with_udp loop udp _idle].
  rewrite Hi. cbn [filter]. rewrite ptr_eqb_refl. reflexivity.
Qed.

Lemma drained_datagrams_are_delivered_witness :
  0 <= _fd (udp pending_example)
  /\ one_delivery_per_invocation (final (notify pending_example))
  /\ map deliveries (snd (idle_times 2 (final (notify pending_example))))
     = [[EvOnReceived ip4_example [x01] 1]; [EvOnReceived ip4_example [x02; x03] 2]].
Proof.
  assert (HI : Inv pending_example).
  { apply Inv_reachable. exists 0, [3%nat].
    exists [Calls (CallSend ip4_example query_example);
            Arrives (Datagram source_example [x01]);
            Arrives (Datagram source_example [x02; x03])].
    vm_compute. reflexivity. }
  assert (Ho : 0 <= _fd (udp pending_example)) by (vm_compute; discriminate).
  assert (Hq : forallb reconstructs (_responses (udp pending_example)) = true)
    by (vm_compute; reflexivity).
  assert (Hs : forallb supported_source (inbound (os pending_example)) = true)
    by (vm_compute; reflexivity).
  split; [exact Ho | ].
  pose proof (drained_datagrams_are_delivered pending_example HI Ho Hq Hs) as H.
  cbv zeta in H. destruct H as (_ & _ & H3 & _ & H5 & _).
  split; [exact H5 | ].
  replace 2%nat with (length (_responses (udp (final (notify pending_example)))))
    by (vm_compute; reflexivity).
  rewrite H3. vm_compute. reflexivity.
Defined.
